(** * Realtime editor backend: rooms, relay and completion proxy

    A shallow embedding of the Express / Socket.IO server of the
    repository (the TypeScript block embedded in [src/README.md]):

    - the process-wide [documents] map and the four socket handlers
      ([join_room], [code_change], [cursor_update], [disconnect]) as
      state-passing functions over a [Server] record;
    - the [/api/completions] handler as a function of the environment,
      the request body and the answer of the provider call.

    Library behaviour the handlers rely on is modelled as documented by
    the libraries: a socket starts in the room named by its own id,
    [socket.join] adds the socket to a room and keeps every room it is in,
    [socket.to(room).emit] reaches the sockets of that room except the
    emitting one, a disconnected socket is in no room, [Date.now()] is an
    input of each step, [JSON.parse] is a parser of the JSON grammar whose
    numbers are doubles, an answer goes out as [JSON.stringify] writes it,
    and a listener that throws ends the process, so that no event is
    handled after it. *)

From stdpp Require Import gmap strings list fin_maps pretty.
From Stdlib Require Import ZArith Ascii String Lia.

Set Warnings "-register-all".
Open Scope Z_scope.

(** ** JSON values and [JSON.parse] *)

Module JSON.

(** A JavaScript number that [JSON.parse] can give: the double
    [m * 2^e], with [m] below [2^53] and [e] from [-1074] to [971] and
    [m] at least [2^52] unless [e] is [-1074], or an infinity. *)
Inductive double :=
| Finite (negative : bool) (m e : Z)
| Infinite (negative : bool).

(** The double nearest to [N / D], ties to the even significand, for
    [N] not negative and [D] positive; what lies beyond the largest
    double is an infinity. *)
Definition round_ratio (negative : bool) (N D : Z) : double :=
  if N =? 0 then Finite negative 0 (-1074)
  else
    let l := Z.log2 N - Z.log2 D in
    let reaches (k : Z) :=
      if 0 <=? k then D * 2 ^ k <=? N else D <=? N * 2 ^ (- k) in
    (* 2^k <= N / D < 2^(k+1) *)
    let k := if reaches l then l else l - 1 in
    let e := Z.max (k - 52) (-1074) in
    let num := if 0 <=? e then N else N * 2 ^ (- e) in
    let den := if 0 <=? e then D * 2 ^ e else D in
    let q := num / den in
    let r := num mod den in
    let up := (den <? 2 * r) || ((den =? 2 * r) && Z.odd q) in
    let q' := if up then q + 1 else q in
    let '(m, e') := if q' =? 2 ^ 53 then (2 ^ 52, e + 1) else (q', e) in
    if 971 <? e' then Infinite negative else Finite negative m e'.

(** The double a decimal literal [m * 10^e] denotes, [m] not negative. *)
Definition decimal (negative : bool) (m e : Z) : double :=
  if 0 <=? e then round_ratio negative (m * 10 ^ e) 1
  else round_ratio negative m (10 ^ (- e)).

(** A JSON value. An object is a finite map from keys to values: a key
    given twice keeps the later value, as a JavaScript object does. *)
Inductive value :=
| Null
| Bool (b : bool)
| Number (d : double)
| Str (s : string)
| Array (xs : list value)
| Object (fields : gmap string value).

Definition is_ws (c : ascii) : bool :=
  (c =? " ")%char || (c =? "009")%char || (c =? "010")%char || (c =? "013")%char.

Fixpoint skip_ws (s : string) : string :=
  match s with
  | String c rest => if is_ws c then skip_ws rest else s
  | EmptyString => s
  end.

Definition digit (c : ascii) : option Z :=
  let n := Z.of_N (N_of_ascii c) in
  if (48 <=? n) && (n <=? 57) then Some (n - 48) else None.

Definition hex_digit (c : ascii) : option Z :=
  let n := Z.of_N (N_of_ascii c) in
  if (48 <=? n) && (n <=? 57) then Some (n - 48)
  else if (65 <=? n) && (n <=? 70) then Some (n - 55)
  else if (97 <=? n) && (n <=? 102) then Some (n - 87)
  else None.

Definition byte (n : Z) : ascii := ascii_of_N (Z.to_N n).

(** The UTF-8 bytes of a code point.  A surrogate that stands alone is a
    code unit of its own in a JavaScript string and gets three bytes
    here. *)
Definition utf8 (u : Z) (rest : string) : string :=
  if u <? 128 then String (byte u) rest
  else if u <? 2048 then
    String (byte (192 + u / 64)) (String (byte (128 + u mod 64)) rest)
  else if u <? 65536 then
    String (byte (224 + u / 4096))
      (String (byte (128 + (u / 64) mod 64)) (String (byte (128 + u mod 64)) rest))
  else
    String (byte (240 + u / 262144))
      (String (byte (128 + (u / 4096) mod 64))
         (String (byte (128 + (u / 64) mod 64))
            (String (byte (128 + u mod 64)) rest))).

Definition hex4 (h1 h2 h3 h4 : ascii) : option Z :=
  match hex_digit h1, hex_digit h2, hex_digit h3, hex_digit h4 with
  | Some a, Some b, Some c, Some d => Some (((a * 16 + b) * 16 + c) * 16 + d)
  | _, _, _, _ => None
  end.

(** The low surrogate escape at the head of a text, if there is one. *)
Definition low_surrogate (s : string) : option Z :=
  match s with
  | String "\" (String "u" (String h1 (String h2 (String h3 (String h4 _))))) =>
    match hex4 h1 h2 h3 h4 with
    | Some lo => if (56320 <=? lo) && (lo <=? 57343) then Some lo else None
    | None => None
    end
  | _ => None
  end.

(** The characters of a string literal after its opening quote, up to
    the closing quote; the text after it is returned too. *)
Fixpoint parse_chars (s : string) : option (string * string) :=
  match s with
  | EmptyString => None
  | String c rest =>
    if (c =? "034")%char then Some (EmptyString, rest)
    else if (c =? "\")%char then
      match rest with
      | String e rest' =>
        let plain (x : ascii) :=
          match parse_chars rest' with
          | Some (t, r) => Some (String x t, r)
          | None => None
          end in
        if (e =? "034")%char then plain "034"%char
        else if (e =? "\")%char then plain "\"%char
        else if (e =? "/")%char then plain "/"%char
        else if (e =? "b")%char then plain "008"%char
        else if (e =? "f")%char then plain "012"%char
        else if (e =? "n")%char then plain "010"%char
        else if (e =? "r")%char then plain "013"%char
        else if (e =? "t")%char then plain "009"%char
        else if (e =? "u")%char then
          match rest' with
          | String h1 (String h2 (String h3 (String h4 rest''))) =>
            match hex4 h1 h2 h3 h4 with
            | Some u =>
              let single :=
                match parse_chars rest'' with
                | Some (t, r) => Some (utf8 u t, r)
                | None => None
                end in
              if (55296 <=? u) && (u <=? 56319) then
                (* a high surrogate: one character with the low one after it *)
                match low_surrogate rest'', rest'' with
                | Some lo,
                  String _ (String _ (String _ (String _ (String _ (String _ rest3))))) =>
                  match parse_chars rest3 with
                  | Some (t, r) =>
                    Some (utf8 (65536 + (u - 55296) * 1024 + (lo - 56320)) t, r)
                  | None => None
                  end
                | _, _ => single
                end
              else single
            | None => None
            end
          | _ => None
          end
        else None
      | EmptyString => None
      end
    else if Z.of_N (N_of_ascii c) <? 32 then None
    else
      match parse_chars rest with
      | Some (t, r) => Some (String c t, r)
      | None => None
      end
  end.

(** A run of decimal digits, possibly empty: the accumulated value, the
    number of digits read and the rest of the text. *)
Fixpoint parse_digits (s : string) (acc : Z) (n : Z) : Z * Z * string :=
  match s with
  | String c rest =>
    match digit c with
    | Some d => parse_digits rest (acc * 10 + d) (n + 1)
    | None => (acc, n, s)
    end
  | EmptyString => (acc, n, s)
  end.

(** A number literal: an optional minus sign, an integer part with no
    leading zero, an optional fraction and an optional exponent. *)
Definition parse_number (s : string) : option (value * string) :=
  let '(neg, s1) :=
    match s with
    | String "-" r => (true, r)
    | _ => (false, s)
    end in
  let int_part :=
    match s1 with
    | String "0" r => Some (0, r)
    | String c _ =>
      match digit c with
      | Some _ => let '(i, _, r) := parse_digits s1 0 0 in Some (i, r)
      | None => None
      end
    | EmptyString => None
    end in
  match int_part with
  | None => None
  | Some (i, s2) =>
    let frac_part :=
      match s2 with
      | String "." r =>
        let '(m, n, r') := parse_digits r i 0 in
        if n =? 0 then None else Some (m, n, r')
      | _ => Some (i, 0, s2)
      end in
    match frac_part with
    | None => None
    | Some (m, n, s3) =>
      let signed_digits (positive : bool) (r : string) :=
        let '(x, k, r') := parse_digits r 0 0 in
        if k =? 0 then None else Some (if positive then x else - x, r') in
      let exp_part :=
        match s3 with
        | String c r =>
          if (c =? "e")%char || (c =? "E")%char then
            match r with
            | String "+" r' => signed_digits true r'
            | String "-" r' => signed_digits false r'
            | _ => signed_digits true r
            end
          else Some (0, s3)
        | EmptyString => Some (0, s3)
        end in
      match exp_part with
      | None => None
      | Some (x, s4) => Some (Number (decimal neg m (x - n)), s4)
      end
    end
  end.

(** A keyword ([true], [false], [null]) at the head of the text. *)
Fixpoint expect (kw s : string) : option string :=
  match kw with
  | EmptyString => Some s
  | String k kw' =>
    match s with
    | String c rest => if (c =? k)%char then expect kw' rest else None
    | EmptyString => None
    end
  end.

(** The elements of an array after the first one, each behind a comma,
    up to the closing bracket. *)
Fixpoint parse_elements (pv : string -> option (value * string))
    (fuel : nat) (s : string) (acc : list value) : option (list value * string) :=
  match fuel with
  | O => None
  | S fuel' =>
    match skip_ws s with
    | String "]" rest => Some (acc, rest)
    | String "," rest =>
      match pv rest with
      | Some (v, rest') => parse_elements pv fuel' rest' (acc ++ [v])
      | None => None
      end
    | _ => None
    end
  end.

(** One member of an object: a key, a colon and a value. *)
Definition parse_member (pv : string -> option (value * string)) (s : string)
    : option (string * value * string) :=
  match skip_ws s with
  | String c rest =>
    if (c =? "034")%char then
      match parse_chars rest with
      | Some (k, rest') =>
        match skip_ws rest' with
        | String ":" rest'' =>
          match pv rest'' with
          | Some (v, r) => Some (k, v, r)
          | None => None
          end
        | _ => None
        end
      | None => None
      end
    else None
  | EmptyString => None
  end.

(** The members of an object after the first one, each behind a comma,
    up to the closing brace. *)
Fixpoint parse_members (pv : string -> option (value * string))
    (fuel : nat) (s : string) (acc : gmap string value)
    : option (gmap string value * string) :=
  match fuel with
  | O => None
  | S fuel' =>
    match skip_ws s with
    | String "}" rest => Some (acc, rest)
    | String "," rest =>
      match parse_member pv rest with
      | Some (k, v, rest') => parse_members pv fuel' rest' (<[k := v]> acc)
      | None => None
      end
    | _ => None
    end
  end.

(** A value with the white space before it. Every nested value and every
    further element costs one unit of fuel and at least one character,
    so the length of the text is fuel enough. *)
Fixpoint parse_value (fuel : nat) (s : string) : option (value * string) :=
  match fuel with
  | O => None
  | S fuel' =>
    match skip_ws s with
    | EmptyString => None
    | String c rest =>
      if (c =? "{")%char then
        match skip_ws rest with
        | String "}" rest' => Some (Object ∅, rest')
        | _ =>
          match parse_member (parse_value fuel') rest with
          | Some (k, v, rest') =>
            match parse_members (parse_value fuel') fuel' rest' {[k := v]} with
            | Some (m, r) => Some (Object m, r)
            | None => None
            end
          | None => None
          end
        end
      else if (c =? "[")%char then
        match skip_ws rest with
        | String "]" rest' => Some (Array [], rest')
        | _ =>
          match parse_value fuel' rest with
          | Some (v, rest') =>
            match parse_elements (parse_value fuel') fuel' rest' [v] with
            | Some (xs, r) => Some (Array xs, r)
            | None => None
            end
          | None => None
          end
        end
      else if (c =? "034")%char then
        match parse_chars rest with
        | Some (t, r) => Some (Str t, r)
        | None => None
        end
      else if (c =? "t")%char then
        match expect "rue" rest with Some r => Some (Bool true, r) | None => None end
      else if (c =? "f")%char then
        match expect "alse" rest with Some r => Some (Bool false, r) | None => None end
      else if (c =? "n")%char then
        match expect "ull" rest with Some r => Some (Null, r) | None => None end
      else parse_number (String c rest)
    end
  end.

(** What a value is once [JSON.stringify] has written it and
    [JSON.parse] has read it back, as on the way from [res.json] to the
    client: an infinity is written [null], minus zero is written [0]. *)
Fixpoint sent (v : value) : value :=
  match v with
  | Number (Infinite _) => Null
  | Number (Finite _ 0 e) => Number (Finite false 0 e)
  | Array xs => Array (map sent xs)
  | Object o => Object (sent <$> o)
  | _ => v
  end.

(** A text between double quotes. *)
Definition quoted (s : string) : string :=
  String "034"%char (s +:+ String "034"%char EmptyString).

(** [JSON.parse(text)]: [None] stands for the [SyntaxError] it throws. *)
Definition parse (text : string) : option value :=
  match parse_value (S (String.length text)) text with
  | Some (v, rest) =>
    match skip_ws rest with
    | EmptyString => Some v
    | String _ _ => None
    end
  | None => None
  end.

End JSON.

(** [!x] for [x] a string or [undefined] / [null]. *)
Definition falsy (s : option string) : bool :=
  match s with
  | Some s => bool_decide (s = "")
  | None => true
  end.

(** ** The room store and the socket handlers *)

Module Realtime.

(** [type DocumentState]: a room's snapshot. *)
Record DocumentState := { content : string; updatedAt : Z }.

(** What the server holds of a connected socket: the closure variable
    [activeRoom] of its handlers ([None] is [null]) and Socket.IO's
    [socket.rooms], the rooms the socket is in. *)
Record Socket := { activeRoom : option string; rooms : gset string }.

(** [documents] is the process-wide [Map]; [sockets] are the connected
    sockets by [socket.id]. *)
Record Server := {
  documents : gmap string DocumentState;
  sockets : gmap string Socket
}.

(** What the server emits; the names are the emitted events'. *)
Inductive Message :=
| initial_state (doc : option DocumentState)
| peer_joined (peerId : string)
| code_change (content : string)
| cursor_update (peerId : string) (cursor : option JSON.value)
| peer_left (peerId : string).

(** An emission: the receiving socket and the message. *)
Definition Emission : Type := string * Message.

(** The three listeners whose parameter is a destructuring pattern,
    [({ roomId, ... }) => ...]. *)
Inductive Listener := OnJoinRoom | OnCodeChange | OnCursorUpdate.

(** What a socket sends, and the two transport events.  A field of a
    payload is [None] when the payload lacks it; [roomId] is declared a
    string, [content] and [cursor] are any JSON value.  [EvNoPayload] is
    one of the three events sent with no payload at all, or with [null]. *)
Inductive Event :=
| EvConnection (sid : string)
| EvJoinRoom (sid : string) (roomId : option string)
| EvCodeChange (sid : string) (roomId : option string) (content : option JSON.value)
| EvCursorUpdate (sid : string) (roomId : option string) (cursor : option JSON.value)
| EvDisconnect (sid : string)
| EvNoPayload (sid : string) (listener : Listener).

(** The server at start: [new Map()] and no socket. *)
Definition start : Server := {| documents := ∅; sockets := ∅ |}.

(** The sockets in a room. *)
Definition in_room (roomId : string) (st : Server) : gset string :=
  dom (filter (λ p, roomId ∈ rooms p.2) (sockets st)).

(** [socket.to(roomId)]: the sockets of the room, the emitting one
    excluded. *)
Definition socket_to (sid roomId : string) (st : Server) : gset string :=
  in_room roomId st ∖ {[sid]}.

(** [.emit(msg)] on a set of receivers. *)
Definition emit (to : gset string) (msg : Message) : list Emission :=
  (λ c, (c, msg)) <$> elements to.

(** [socket.on('join_room', ...)] *)
Definition on_join_room (sid : string) (roomId : option string) (now : Z)
    (st : Server) : Server * list Emission :=
  match roomId with
  | Some r =>
    if falsy roomId then (st, [])
    else
      (* activeRoom = roomId; socket.join(roomId) *)
      let joined :=
        alter (λ k, {| activeRoom := Some r; rooms := {[r]} ∪ rooms k |})
          sid (sockets st) in
      (* if (!documents.has(roomId)) documents.set(roomId, ...) *)
      let docs :=
        match documents st !! r with
        | Some _ => documents st
        | None => <[r := {| content := ""; updatedAt := now |}]> (documents st)
        end in
      let st' := {| documents := docs; sockets := joined |} in
      (st', (sid, initial_state (docs !! r))
              :: emit (socket_to sid r st') (peer_joined sid))
  | None => (st, [])
  end.

(** [socket.on('code_change', ...)] *)
Definition on_code_change (sid : string) (roomId : option string)
    (content : option JSON.value) (now : Z) (st : Server)
    : Server * list Emission :=
  match roomId, content with
  | Some r, Some (JSON.Str c) =>
    if falsy roomId then (st, [])
    else
      ({| documents := <[r := {| content := c; updatedAt := now |}]> (documents st);
          sockets := sockets st |},
       emit (socket_to sid r st) (code_change c))
  | _, _ => (st, [])
  end.

(** [socket.on('cursor_update', ...)] *)
Definition on_cursor_update (sid : string) (roomId : option string)
    (cursor : option JSON.value) (st : Server) : Server * list Emission :=
  match roomId with
  | Some r =>
    if falsy roomId then (st, [])
    else (st, emit (socket_to sid r st) (cursor_update sid cursor))
  | None => (st, [])
  end.

(** [socket.on('disconnect', ...)]; the socket is gone afterwards. *)
Definition on_disconnect (sid : string) (st : Server) : Server * list Emission :=
  let out :=
    match sockets st !! sid with
    | Some k =>
      match activeRoom k with
      | Some r =>
        if falsy (activeRoom k) then []
        else emit (socket_to sid r st) (peer_left sid)
      | None => []
      end
    | None => []
    end in
  ({| documents := documents st; sockets := delete sid (sockets st) |}, out).

(** [io.on('connection', ...)]: [let activeRoom = null].  Socket.IO puts
    a new socket in one room, the room named by the socket's own id. *)
Definition on_connection (sid : string) (st : Server) : Server :=
  {| documents := documents st;
     sockets := <[sid := {| activeRoom := None; rooms := {[sid]} |}]> (sockets st) |}.

(** An event on which the listener throws: destructuring [undefined] or
    [null] is a [TypeError], raised before the guard of the listener
    runs.  Nothing catches it, and the server process ends. *)
Definition crashes (st : Server) (e : Event) : bool :=
  match e with
  | EvNoPayload sid _ => bool_decide (is_Some (sockets st !! sid))
  | _ => false
  end.

(** One event, at clock reading [now].  [None] marks an event that is not
    handled: one the transport never delivers (an event of a socket that
    is not connected, a connection under an id in use), or one on which
    the listener throws ([crashes]), after which no event is handled. *)
Definition dispatch (st : Server) (now : Z) (e : Event)
    : option (Server * list Emission) :=
  match e with
  | EvConnection sid =>
    match sockets st !! sid with
    | None => Some (on_connection sid st, [])
    | Some _ => None
    end
  | EvJoinRoom sid roomId =>
    match sockets st !! sid with
    | Some _ => Some (on_join_room sid roomId now st)
    | None => None
    end
  | EvCodeChange sid roomId content =>
    match sockets st !! sid with
    | Some _ => Some (on_code_change sid roomId content now st)
    | None => None
    end
  | EvCursorUpdate sid roomId cursor =>
    match sockets st !! sid with
    | Some _ => Some (on_cursor_update sid roomId cursor st)
    | None => None
    end
  | EvDisconnect sid =>
    match sockets st !! sid with
    | Some _ => Some (on_disconnect sid st)
    | None => None
    end
  | EvNoPayload _ _ => None
  end.

(** The events are handled one at a time, each to completion. *)
Fixpoint run (st : Server) (tr : list (Z * Event))
    : option (Server * list Emission) :=
  match tr with
  | [] => Some (st, [])
  | (now, e) :: tr' =>
    match dispatch st now e with
    | Some (st', out) =>
      match run st' tr' with
      | Some (st'', out') => Some (st'', out ++ out')
      | None => None
      end
    | None => None
    end
  end.

(** A mutation the handler accepts for room [r]: a non-empty room id and
    a string content. *)
Definition accepted_change (r : string) (e : Event) : Prop :=
  r ≠ "" ∧ ∃ sid c, e = EvCodeChange sid (Some r) (Some (JSON.Str c)).

(** A join the handler accepts for room [r]. *)
Definition accepted_join (r : string) (e : Event) : Prop :=
  r ≠ "" ∧ ∃ sid, e = EvJoinRoom sid (Some r).

(** An event that can open room [r]. *)
Definition opens (r : string) (e : Event) : Prop :=
  accepted_join r e ∨ accepted_change r e.

(** The last clock reading of a trace that starts at reading [t]. *)
Fixpoint last_now (t : Z) (tr : list (Z * Event)) : Z :=
  match tr with
  | [] => t
  | (now, _) :: tr' => last_now now tr'
  end.

(** The clock readings of a trace never go back. *)
Fixpoint monotone_from (t : Z) (tr : list (Z * Event)) : Prop :=
  match tr with
  | [] => True
  | (now, _) :: tr' => t ≤ now ∧ monotone_from now tr'
  end.

(** The recorded room of a socket is one of the rooms it is in. *)
Definition active_room_joined (st : Server) : Prop :=
  ∀ x k r, sockets st !! x = Some k → activeRoom k = Some r → r ∈ rooms k.

(** No snapshot is stamped later than the clock reading [t]. *)
Definition stamped_by (t : Z) (st : Server) : Prop :=
  ∀ r d, documents st !! r = Some d → updatedAt d ≤ t.

(** The scenario of the spec: [a] and [b] join [demo], [a] sets the
    code to [x=1], then [c] joins. *)
Definition demo_trace : list (Z * Event) :=
  [ (0, EvConnection "a"); (1, EvConnection "b");
    (2, EvJoinRoom "a" (Some "demo")); (3, EvJoinRoom "b" (Some "demo"));
    (4, EvCodeChange "a" (Some "demo") (Some (JSON.Str "x=1")));
    (5, EvConnection "c"); (6, EvJoinRoom "c" (Some "demo")) ].

(** Two sockets share room [r1]; then the first one joins [r2] without
    disconnecting. *)
Definition rejoin_trace : list (Z * Event) :=
  [ (0, EvConnection "a"); (1, EvConnection "b");
    (2, EvJoinRoom "a" (Some "r1")); (3, EvJoinRoom "b" (Some "r1"));
    (4, EvJoinRoom "a" (Some "r2")) ].

(** A socket connects and changes the code of a room nobody joined. *)
Definition change_only_trace : list (Z * Event) :=
  [ (0, EvConnection "a");
    (1, EvCodeChange "a" (Some "r") (Some (JSON.Str "x"))) ].

(** One socket is in room [demo], another one is connected only. *)
Definition outsider_trace : list (Z * Event) :=
  [ (0, EvConnection "a"); (1, EvConnection "b");
    (2, EvJoinRoom "b" (Some "demo")) ].

(** A socket joins room [demo]; later it changes the code. *)
Definition join_trace : list (Z * Event) :=
  [ (0, EvConnection "a"); (1, EvJoinRoom "a" (Some "demo")) ].

Definition edit_trace : list (Z * Event) :=
  [ (2, EvCodeChange "a" (Some "demo") (Some (JSON.Str "x=1"))) ].

(** Two sockets connected, neither in a room but the room of its id. *)
Definition idle_trace : list (Z * Event) :=
  [ (0, EvConnection "a"); (1, EvConnection "b") ].

(** Two sockets in room [demo]. *)
Definition pair_trace : list (Z * Event) :=
  idle_trace ++ [ (2, EvJoinRoom "a" (Some "demo")); (3, EvJoinRoom "b" (Some "demo")) ].

(** The server after a trace that is handled to its end. *)
Definition state_after (tr : list (Z * Event)) : Server :=
  match run start tr with
  | Some (st, _) => st
  | None => start
  end.

Definition idle_state : Server := state_after idle_trace.
Definition pair_state : Server := state_after pair_trace.
Definition rejoin_state : Server := state_after rejoin_trace.
Definition demo_state : Server := state_after demo_trace.

End Realtime.

(** ** The completion endpoint *)

Module Completions.

(** [process.env]: the two variables the handler reads. *)
Record Env := {
  env_GEMINI_API_KEY : option string;
  env_GEMINI_MODEL : option string
}.

Definition GEMINI_API_KEY (env : Env) : option string := env_GEMINI_API_KEY env.

(** [process.env.GEMINI_MODEL ?? 'gemini-1.5-flash-latest'] *)
Definition GEMINI_MODEL (env : Env) : string :=
  default "gemini-1.5-flash-latest" (env_GEMINI_MODEL env).

(** [req.body]: a field is [None] when the body omits it; a field that is
    present has the kind the handler uses it at. *)
Record Body := {
  code : option string;
  language : option string;
  cursor : option Z;
  instructions : option string
}.

(** The body [{}] of [req.body ?? {}]. *)
Definition empty_body : Body :=
  {| code := None; language := None; cursor := None; instructions := None |}.

(** What is posted to the provider: the address and the two text parts. *)
Record GeminiRequest := { url : string; parts : list string }.

(** How [await axios.post(...)] ends: it resolves, and [text] is
    [response.data?.candidates?.[0]?.content?.parts?.[0]?.text] (a string
    when the answer has one, [None] for [undefined]), or it
    rejects with an error carrying an optional [response] (status and
    data) and an optional [message]. *)
Inductive AxiosResult :=
| Resolved (text : option string)
| Rejected (response : option (Z * option JSON.value)) (message : option string).

(** The responses axios rejects with are those whose status its
    [validateStatus] refuses: a final status of HTTP, of three digits,
    that is not from 200 to 299. *)
Definition rejects_by_status (axios_post : GeminiRequest → AxiosResult) : Prop :=
  ∀ rq s d m, axios_post rq = Rejected (Some (s, d)) m → 300 ≤ s ≤ 999.

(** An answer as the client gets it: the status, and the body read back
    from the text sent ([None] when no body is sent). *)
Record Response := { status : Z; body : option JSON.value }.

(** A status with which no body goes out: [res.send] of Express empties
    the body for 204, 205 and 304, and Node writes none below 200. *)
Definition bodiless (status : Z) : bool :=
  (status <? 200) || (status =? 204) || (status =? 205) || (status =? 304).

(** [res.status(status).json(v)] *)
Definition res_status_json (status : Z) (v : JSON.value) : Response :=
  {| status := status;
     body := if bodiless status then None else Some (JSON.sent v) |}.

(** [res.json(v)] *)
Definition res_json (v : JSON.value) : Response := res_status_json 200 v.

Definition error_body (v : JSON.value) : JSON.value := JSON.Object {["error" := v]}.

Definition newline : string := String "010"%char EmptyString.

(** [Array.prototype.join] *)
Fixpoint join (sep : string) (xs : list string) : string :=
  match xs with
  | [] => ""
  | [x] => x
  | x :: xs' => x +:+ sep +:+ join sep xs'
  end.

(** [String.prototype.slice(start, end)] on integers: a negative index
    counts from the end, both are clamped to the text.  Positions count
    the characters of the Rocq string, which are JavaScript's for a text
    in the ASCII range. *)
Definition slice (s : string) (from to : Z) : string :=
  let len := Z.of_nat (String.length s) in
  let clamp (i : Z) := if i <? 0 then Z.max (len + i) 0 else Z.min i len in
  let a := clamp from in
  let b := clamp to in
  substring (Z.to_nat a) (Z.to_nat (Z.max (b - a) 0)) s.

(** [.filter(Boolean)] on an array of strings and [undefined]s: the empty
    string is falsy too. *)
Definition filter_Boolean (xs : list (option string)) : list string :=
  omap (λ x, match x with
             | Some s => if bool_decide (s = "") then None else Some s
             | None => None
             end) xs.

Definition systemPrompt : string :=
  join " " [
    "You are an AI pair programmer that only returns JSON.";
    "Output must be a JSON object with shape:";
    "{ " +:+ JSON.quoted "completions" +:+ ": [ { " +:+ JSON.quoted "insertText"
      +:+ ": string, " +:+ JSON.quoted "displayText" +:+ ": string } ] }";
    "Make insertText directly pasteable at the cursor, no markdown fences."
  ].

Definition userPrompt (code language : string) (cursor : Z)
    (instructions : option string) : string :=
  join newline (filter_Boolean [
    Some ("Language: " +:+ language);
    Some ("Cursor offset: " +:+ pretty cursor);
    match instructions with
    | Some i => if bool_decide (i = "") then None
                else Some ("Additional instructions: " +:+ i)
    | None => None
    end;
    Some "---- CURRENT FILE START ----";
    Some (slice code (Z.max 0 (cursor - 2000)) cursor);
    Some "<CURSOR>";
    Some (slice code cursor (cursor + 2000));
    Some "---- CURRENT FILE END ----"
  ]).

(** The request the handler posts for the destructured fields. *)
Definition gemini_request (env : Env) (code language : string) (cursor : Z)
    (instructions : option string) : GeminiRequest :=
  {| url := "https://generativelanguage.googleapis.com/v1beta/models/"
            +:+ GEMINI_MODEL env +:+ ":generateContent?key="
            +:+ default "" (GEMINI_API_KEY env);
     parts := [systemPrompt; userPrompt code language cursor instructions] |}.

(** The payload of the [catch] around [JSON.parse]. *)
Definition wrapped (textResponse : string) : JSON.value :=
  JSON.Object {[
    "completions" := JSON.Array [
      JSON.Object (<["insertText" := JSON.Str textResponse]>
                     {["displayText" := JSON.Str "Gemini suggestion"]})
    ]
  ]}.

(** The handler from [const textResponse = ...] on. *)
Definition respond_text (textResponse : option string) : Response :=
  match textResponse with
  | Some t =>
    if bool_decide (t = "") then
      res_status_json 500 (error_body (JSON.Str "No completion returned from Gemini"))
    else
      match JSON.parse t with
      | Some completionsPayload => res_json completionsPayload
      | None => res_json (wrapped t)
      end
  | None =>
    res_status_json 500 (error_body (JSON.Str "No completion returned from Gemini"))
  end.

(** The outer [catch (error)]. *)
Definition respond_error (response : option (Z * option JSON.value))
    (message : option string) : Response :=
  let data :=
    match response with
    | Some (_, Some JSON.Null) | Some (_, None) | None => None
    | Some (_, Some d) => Some d
    end in
  res_status_json
    match response with Some (s, _) => s | None => 500 end
    (error_body
       match data with
       | Some d => d
       | None => JSON.Str (default "Unknown error" message)
       end).

(** [app.post('/api/completions', ...)]: [axios_post] is the provider call. *)
Definition completions (env : Env) (axios_post : GeminiRequest → AxiosResult)
    (req_body : option Body) : Response :=
  if falsy (GEMINI_API_KEY env) then
    res_status_json 500 (error_body (JSON.Str "GEMINI_API_KEY is not configured"))
  else
    let b := default empty_body req_body in
    let code := default "" (code b) in
    let language := default "typescript" (language b) in
    let cursor := default 0 (cursor b) in
    match axios_post (gemini_request env code language cursor (instructions b)) with
    | Resolved textResponse => respond_text textResponse
    | Rejected response message => respond_error response message
    end.


(** An environment with a credential, and providers that answer every
    request with the same text. *)
Definition configured : Env :=
  {| env_GEMINI_API_KEY := Some "key"; env_GEMINI_MODEL := None |}.

Definition answering (text : string) : GeminiRequest → AxiosResult :=
  λ _, Resolved (Some text).

(** A provider that fails every request with the same response. *)
Definition failing (status : Z) (data : option JSON.value) (message : option string)
    : GeminiRequest → AxiosResult :=
  λ _, Rejected (Some (status, data)) message.

(** The request of the scenario: [{code: 'print(', language: 'python', cursor: 6}]. *)
Definition print_request : Body :=
  {| code := Some "print("; language := Some "python"; cursor := Some 6;
     instructions := None |}.

(** The shape [{ completions: [ { insertText, displayText } ] }] the
    system prompt asks for: an object whose [completions] is an array of
    objects with a string [insertText] and a string [displayText]. *)
Definition is_completion (v : JSON.value) : bool :=
  match v with
  | JSON.Object o =>
    match o !! "insertText", o !! "displayText" with
    | Some (JSON.Str _), Some (JSON.Str _) => true
    | _, _ => false
    end
  | _ => false
  end.

Definition has_completions_shape (v : JSON.value) : bool :=
  match v with
  | JSON.Object o =>
    match o !! "completions" with
    | Some (JSON.Array xs) => forallb is_completion xs
    | _ => false
    end
  | _ => false
  end.

End Completions.

(** ** What a trace writes to a room *)

Module History.

Import Realtime.

(** The content a room holds after one more event, read off the event
    alone: an accepted join opens the room with the empty text if it has
    none, an accepted change replaces the text, nothing else counts. *)
Definition written_step (r : string) (e : Event) (acc : option string)
    : option string :=
  match e with
  | EvJoinRoom _ (Some r') =>
    if bool_decide (r' = r) && negb (bool_decide (r = "")) then
      match acc with
      | Some c => Some c
      | None => Some ""
      end
    else acc
  | EvCodeChange _ (Some r') (Some (JSON.Str c)) =>
    if bool_decide (r' = r) && negb (bool_decide (r = "")) then Some c else acc
  | _ => acc
  end.

(** The content of room [r] after a trace, from the content [acc] before. *)
Fixpoint written (r : string) (tr : list (Z * Event)) (acc : option string)
    : option string :=
  match tr with
  | [] => acc
  | (_, e) :: tr' => written r tr' (written_step r e acc)
  end.

(** The sockets that disconnect in a trace. *)
Definition disconnects (sid : string) (tr : list (Z * Event)) : Prop :=
  ∃ t, (t, EvDisconnect sid) ∈ tr.

(** Socket [x] joined room [r] in the trace and did not disconnect
    after that join. *)
Definition joined_since (x r : string) (tr : list (Z * Event)) : Prop :=
  ∃ tr1 t tr2,
    tr = tr1 ++ (t, EvJoinRoom x (Some r)) :: tr2
    ∧ ∀ t', (t', EvDisconnect x) ∉ tr2.

(** The socket an event comes from. *)
Definition sender (e : Event) : string :=
  match e with
  | EvConnection sid | EvJoinRoom sid _ | EvCodeChange sid _ _
  | EvCursorUpdate sid _ _ | EvDisconnect sid | EvNoPayload sid _ => sid
  end.

End History.

(** ** The window of the prompt *)

Module Prompt.

Import Completions.

(** How [slice] reads an index of a text of [len] characters. *)
Definition clamp (len i : Z) : Z :=
  if i <? 0 then Z.max (len + i) 0 else Z.min i len.

(** [code.slice(Math.max(0, cursor - 2000), cursor)] *)
Definition window_before (code : string) (cursor : Z) : string :=
  slice code (Z.max 0 (cursor - 2000)) cursor.

(** [code.slice(cursor, cursor + 2000)] *)
Definition window_after (code : string) (cursor : Z) : string :=
  slice code cursor (cursor + 2000).

(** The lines of the user prompt before [.filter(Boolean)]. *)
Definition prompt_lines (code language : string) (cursor : Z)
    (instructions : option string) : list (option string) :=
  [ Some ("Language: " +:+ language);
    Some ("Cursor offset: " +:+ pretty cursor);
    match instructions with
    | Some i => if bool_decide (i = "") then None
                else Some ("Additional instructions: " +:+ i)
    | None => None
    end;
    Some "---- CURRENT FILE START ----";
    Some (window_before code cursor);
    Some "<CURSOR>";
    Some (window_after code cursor);
    Some "---- CURRENT FILE END ----" ].

End Prompt.

(** ** The browser client ([frontend/src/App.tsx]) *)

Module Client.

Import Realtime.

(** [type RoomState]: the Zustand store, without its setters.  The
    socket is known by its id ([None] is [null]); a cursor is any value
    the server relays ([None] is [null] or [undefined]). *)
Record RoomState := {
  socket : option string;
  roomId : string;
  code : string;
  cursor : option JSON.value;
  peers : gmap string (option JSON.value)
}.

(** The store [create] starts with. *)
Definition initial_store : RoomState :=
  {| socket := None; roomId := "demo-room"; code := ""; cursor := None; peers := ∅ |}.

Definition setRoom (r : string) (s : RoomState) : RoomState :=
  {| socket := socket s; roomId := r; code := code s; cursor := cursor s;
     peers := peers s |}.

Definition setCode (c : string) (s : RoomState) : RoomState :=
  {| socket := socket s; roomId := roomId s; code := c; cursor := cursor s;
     peers := peers s |}.

Definition setPeers
    (updater : gmap string (option JSON.value) → gmap string (option JSON.value))
    (s : RoomState) : RoomState :=
  {| socket := socket s; roomId := roomId s; code := code s; cursor := cursor s;
     peers := updater (peers s) |}.

Definition setSocket (sk : option string) (s : RoomState) : RoomState :=
  {| socket := sk; roomId := roomId s; code := code s; cursor := cursor s;
     peers := peers s |}.

(** The listeners the effect registers with [s.on]; the client has none
    for [peer_joined].  A snapshot that is missing makes the listener
    throw before it sets anything. *)
Definition receive (m : Message) (s : RoomState) : RoomState :=
  match m with
  | initial_state (Some payload) => setCode (content payload) s
  | initial_state None => s
  | code_change c => setCode c s
  | cursor_update peerId cur => setPeers (λ prev, <[peerId := cur]> prev) s
  | peer_left peerId => setPeers (λ prev, delete peerId prev) s
  | peer_joined _ => s
  end.

(** The effect of [useEffect], run with the socket [io(BACKEND_URL)]
    opens: what the store becomes and what reaches the server. *)
Definition effect (sid : string) (s : RoomState) : RoomState * list Event :=
  (setSocket (Some sid) s, [EvConnection sid; EvJoinRoom sid (Some (roomId s))]).

(** Its cleanup: [s.disconnect()]. *)
Definition cleanup (sid : string) : list Event := [EvDisconnect sid].

(** The room input changes to [r]: [setRoom], and when the room id
    differs React cleans the effect up and runs it again, with the
    socket [fresh] that [io] opens then. *)
Definition change_room (r fresh : string) (s : RoomState)
    : RoomState * list Event :=
  if bool_decide (r = roomId s) then (setRoom r s, [])
  else
    let '(s', joined) := effect fresh (setRoom r s) in
    (s', match socket s with
         | Some old => cleanup old
         | None => []
         end ++ joined).

(** [handleCodeChange] *)
Definition handleCodeChange (value : string) (s : RoomState)
    : RoomState * list Event :=
  (setCode value s,
   match socket s with
   | Some sid => [EvCodeChange sid (Some (roomId s)) (Some (JSON.Str value))]
   | None => []
   end).

(** The component: the store and its three [useState] cells. *)
Record App := {
  store : RoomState;
  language : string;
  loadingCompletion : bool;
  completion : option JSON.value
}.

Definition initial_app : App :=
  {| store := initial_store; language := "typescript";
     loadingCompletion := false; completion := None |}.

(** The body [requestCompletion(code.length)] posts, as the button calls
    it: the cursor is the end of the text. *)
Definition completion_request (a : App) : Completions.Body :=
  {| Completions.code := Some (code (store a));
     Completions.language := Some (language a);
     Completions.cursor := Some (Z.of_nat (String.length (code (store a))));
     Completions.instructions := None |}.

(** [payload.completions]: [None] is the [TypeError] on [null], the
    inner [None] is [undefined]. *)
Definition get_completions (payload : JSON.value) : option (option JSON.value) :=
  match payload with
  | JSON.Null => None
  | JSON.Object o => Some (o !! "completions")
  | _ => Some None
  end.

(** [v?.[0]] *)
Definition index0 (v : option JSON.value) : option JSON.value :=
  match v with
  | Some (JSON.Array xs) => head xs
  | Some (JSON.Str (String c _)) => Some (JSON.Str (String c EmptyString))
  | Some (JSON.Object o) => o !! "0"
  | _ => None
  end.

(** [payload.completions?.[0] ?? null] *)
Definition first_completion (payload : JSON.value) : option (option JSON.value) :=
  match get_completions payload with
  | Some cs =>
    Some match index0 cs with
         | Some JSON.Null => None
         | c => c
         end
  | None => None
  end.

(** What [requestCompletion] does when the answer is there: axios
    resolves on a status from 200 to 299 and throws otherwise ([None] is
    no answer at all); the [catch] only logs, [finally] clears the flag.
    The data of an answer without a body is the empty text. *)
Definition on_completion_answer (res : option Completions.Response) (a : App) : App :=
  let chosen :=
    match res with
    | Some r =>
      if (200 <=? Completions.status r) && (Completions.status r <? 300) then
        first_completion (default (JSON.Str "") (Completions.body r))
      else None
    | None => None
    end in
  {| store := store a; language := language a; loadingCompletion := false;
     completion := match chosen with
                   | Some c => c
                   | None => completion a
                   end |}.

(** [!completion] *)
Definition no_completion (c : option JSON.value) : bool :=
  match c with
  | None | Some JSON.Null => true
  | Some (JSON.Bool b) => negb b
  | Some (JSON.Number (JSON.Finite _ m _)) => m =? 0
  | Some (JSON.Number (JSON.Infinite _)) => false
  | Some (JSON.Str s) => bool_decide (s = "")
  | Some (JSON.Array _) | Some (JSON.Object _) => false
  end.

(** [completion.insertText] of a completion that is there. *)
Definition insertText (c : JSON.value) : option JSON.value :=
  match c with
  | JSON.Object o => o !! "insertText"
  | _ => None
  end.

(** The text [code + x] appends for [x].  [None]: [x] is a number or an
    array, whose text (the shortest decimal of a double) is not modelled. *)
Definition appended (x : option JSON.value) : option string :=
  match x with
  | None => Some "undefined"
  | Some JSON.Null => Some "null"
  | Some (JSON.Bool true) => Some "true"
  | Some (JSON.Bool false) => Some "false"
  | Some (JSON.Str t) => Some t
  | Some (JSON.Object _) => Some "[object Object]"
  | Some (JSON.Number _) | Some (JSON.Array _) => None
  end.

(** [handleApplyCompletion]; [None] only where [appended] is. *)
Definition handleApplyCompletion (a : App) : option (App * list Event) :=
  match completion a with
  | Some c =>
    if no_completion (completion a) then Some (a, [])
    else
      match appended (insertText c) with
      | Some t =>
        let '(s', out) := handleCodeChange (code (store a) +:+ t) (store a) in
        Some ({| store := s'; language := language a;
                 loadingCompletion := loadingCompletion a; completion := None |}, out)
      | None => None
      end
  | None => Some (a, [])
  end.

(** The clients by the id of their socket, and what they make of the
    emissions of the server. *)
Definition deliver (out : list Emission) (clients : gmap string RoomState)
    : gmap string RoomState :=
  foldl (λ cs em, alter (receive em.2) em.1 cs) clients out.

(** The events that carry a cursor. *)
Definition is_cursor_event (e : Event) : bool :=
  match e with
  | EvCursorUpdate _ _ _ => true
  | _ => false
  end.

(** The component with its loading flag cleared, nothing else changed. *)
Definition loaded (a : App) : App :=
  {| store := store a; language := language a; loadingCompletion := false;
     completion := completion a |}.

End Client.

(** * Properties *)

Import Realtime.

(** ** Rooms, receivers and emissions *)

Lemma elem_of_in_room (c r : string) (st : Server) :
  c ∈ in_room r st ↔ ∃ k, sockets st !! c = Some k ∧ r ∈ rooms k.
Proof.
  unfold in_room. rewrite elem_of_dom. split.
  - intros [k Hk]. apply map_lookup_filter_Some in Hk as [Hk Hr]. eauto.
  - intros (k & Hk & Hr). exists k. apply map_lookup_filter_Some. auto.
Qed.

Lemma elem_of_socket_to (c sid r : string) (st : Server) :
  c ∈ socket_to sid r st ↔ c ≠ sid ∧ c ∈ in_room r st.
Proof. unfold socket_to. rewrite elem_of_difference, elem_of_singleton. tauto. Qed.

Lemma elem_of_emit (c : string) (m msg : Message) (to : gset string) :
  (c, m) ∈ emit to msg ↔ c ∈ to ∧ m = msg.
Proof.
  unfold emit. rewrite list_elem_of_fmap. split.
  - intros (x & Heq & Hx). inversion Heq; subst. by rewrite elem_of_elements in Hx.
  - intros [Hc ->]. exists c. by rewrite elem_of_elements.
Qed.

Lemma NoDup_emit (to : gset string) (msg : Message) : NoDup (emit to msg).
Proof.
  unfold emit. apply NoDup_fmap_2; [ | apply NoDup_elements ].
  intros x y Heq. by inversion Heq.
Qed.

Lemma falsy_nonempty (r : string) : r ≠ "" → falsy (Some r) = false.
Proof. intros Hr. unfold falsy. by apply bool_decide_eq_false. Qed.

Lemma on_code_change_accepted sid r c now st :
  r ≠ "" →
  on_code_change sid (Some r) (Some (JSON.Str c)) now st =
    ({| documents := <[r := {| content := c; updatedAt := now |}]> (documents st);
        sockets := sockets st |},
     emit (socket_to sid r st) (code_change c)).
Proof. intros Hr. unfold on_code_change. by rewrite falsy_nonempty. Qed.

(** The scenario of the spec, run: [b] is sent the new code, and [c] the
    snapshot that holds it. *)
Example demo_trace_emissions :
  snd <$> run start demo_trace = Some [
    ("a", initial_state (Some {| content := ""; updatedAt := 2 |}));
    ("b", initial_state (Some {| content := ""; updatedAt := 2 |}));
    ("a", peer_joined "b");
    ("b", code_change "x=1");
    ("c", initial_state (Some {| content := "x=1"; updatedAt := 4 |}));
    ("a", peer_joined "c"); ("b", peer_joined "c") ].
Proof. vm_compute. reflexivity. Qed.

(** ** Events without a room id, a string content, or a payload *)

(** C4: a [code_change] that carries a payload whose content is not a
    string is dropped in silence: the rooms and the sockets are as
    before and nothing is emitted.  The same event sent with no payload
    at all, whose content is no string either, is not dropped: the
    listener throws before its guard runs, and no event is handled
    after it. *)
Theorem code_change_without_string_content
    (sid : string) (roomId : option string) (content : option JSON.value)
    (now : Z) (st : Server) (tr : list (Z * Event)) :
  is_Some (sockets st !! sid) →
  (∀ c, content ≠ Some (JSON.Str c)) →
  dispatch st now (EvCodeChange sid roomId content) = Some (st, [])
  ∧ crashes st (EvNoPayload sid OnCodeChange) = true
  ∧ run st ((now, EvNoPayload sid OnCodeChange) :: tr) = None.
Proof.
  intros [k Hk] Hns. split; [ | split ].
  - unfold dispatch. rewrite Hk. f_equal. unfold on_code_change.
    destruct roomId as [r|]; [ | done ].
    destruct content as [v|]; [ | done ].
    destruct v as [ | | | s | | ]; try done. exfalso. by eapply Hns.
  - unfold crashes. apply bool_decide_eq_true_2. eauto.
  - reflexivity.
Qed.

Lemma code_change_without_string_content_witness :
  is_Some (sockets demo_state !! "b")
  ∧ (∀ c, Some (JSON.Bool true) ≠ Some (JSON.Str c))
  ∧ documents demo_state !! "demo" = Some {| content := "x=1"; updatedAt := 4 |}
  ∧ dispatch demo_state 7 (EvCodeChange "b" (Some "demo") (Some (JSON.Bool true)))
      = Some (demo_state, [])
  ∧ crashes demo_state (EvNoPayload "b" OnCodeChange) = true
  ∧ run demo_state
      [ (7, EvNoPayload "b" OnCodeChange);
        (8, EvCodeChange "a" (Some "demo") (Some (JSON.Str "y"))) ] = None.
Proof.
  assert (Hconn : is_Some (sockets demo_state !! "b")).
  { eexists. vm_compute. reflexivity. }
  split; [ exact Hconn | ]. split; [ discriminate | ].
  split; [ vm_compute; reflexivity | ].
  apply (code_change_without_string_content "b" (Some "demo") (Some (JSON.Bool true))
           7 demo_state
           [ (8, EvCodeChange "a" (Some "demo") (Some (JSON.Str "y"))) ] Hconn).
  discriminate.
Defined.

(** C6: a [join_room] that carries a payload whose room id is empty or
    missing is a silent no-op: no room is created, the socket's
    [activeRoom] and rooms are as before, and nothing is emitted.  The
    same event sent with no payload at all, whose room id is absent too,
    is not: the listener throws before its guard runs, and no event is
    handled after it. *)
Theorem join_room_without_room_id
    (sid : string) (roomId : option string) (now : Z) (st : Server)
    (tr : list (Z * Event)) :
  is_Some (sockets st !! sid) →
  roomId = None ∨ roomId = Some "" →
  dispatch st now (EvJoinRoom sid roomId) = Some (st, [])
  ∧ crashes st (EvNoPayload sid OnJoinRoom) = true
  ∧ run st ((now, EvNoPayload sid OnJoinRoom) :: tr) = None.
Proof.
  intros [k Hk] Hid. split; [ | split ].
  - unfold dispatch. rewrite Hk. by destruct Hid as [-> | ->].
  - unfold crashes. apply bool_decide_eq_true_2. eauto.
  - reflexivity.
Qed.

Lemma join_room_without_room_id_witness :
  is_Some (sockets demo_state !! "b")
  ∧ (Some "" = None ∨ Some "" = Some "")
  ∧ sockets demo_state !! "b"
      = Some {| activeRoom := Some "demo"; rooms := {["b"; "demo"]} |}
  ∧ dispatch demo_state 7 (EvJoinRoom "b" (Some "")) = Some (demo_state, [])
  ∧ crashes demo_state (EvNoPayload "b" OnJoinRoom) = true
  ∧ run demo_state
      [ (7, EvNoPayload "b" OnJoinRoom); (8, EvJoinRoom "a" (Some "demo")) ] = None.
Proof.
  assert (Hconn : is_Some (sockets demo_state !! "b")).
  { eexists. vm_compute. reflexivity. }
  split; [ exact Hconn | ]. split; [ by right | ].
  split; [ vm_compute; reflexivity | ].
  apply (join_room_without_room_id "b" (Some "") 7 demo_state
           [ (8, EvJoinRoom "a" (Some "demo")) ] Hconn).
  by right.
Defined.

(** ** What a step does to the room store *)

Lemma on_join_room_documents sid r now st :
  r ≠ "" →
  documents (on_join_room sid (Some r) now st).1 =
    match documents st !! r with
    | Some _ => documents st
    | None => <[r := {| content := ""; updatedAt := now |}]> (documents st)
    end.
Proof. intros Hr. unfold on_join_room. by rewrite falsy_nonempty. Qed.

(** A step that is no accepted mutation of room [r] keeps the snapshot
    [r] has. *)
Lemma dispatch_keeps_snapshot st now e st' out r d :
  dispatch st now e = Some (st', out) →
  ¬ accepted_change r e →
  documents st !! r = Some d →
  documents st' !! r = Some d.
Proof.
  intros Hd Hna Hdoc. destruct e as [sid|sid roomId|sid roomId cnt|sid roomId cur|sid|sid lst];
    simpl in Hd; destruct (sockets st !! sid) as [k|] eqn:Hk; try done;
    inversion Hd as [[Hst]]; clear Hd; try done;
    apply (f_equal fst) in Hst; simpl in Hst; subst st'.
  - destruct roomId as [r'|]; [ | done ].
    destruct (decide (r' = "")) as [-> | Hr']; [ done | ].
    rewrite on_join_room_documents by done.
    destruct (documents st !! r') eqn:Hr'd; [ done | ].
    rewrite lookup_insert_ne; [ done | congruence ].
  - destruct roomId as [r'|]; [ | done ].
    destruct cnt as [[ | | | c | | ]|]; try done.
    destruct (decide (r' = "")) as [-> | Hr']; [ done | ].
    rewrite on_code_change_accepted by done. simpl.
    rewrite lookup_insert_ne; [ done | ].
    intros ->. apply Hna. split; [ done | eauto ].
  - unfold on_cursor_update. destruct roomId as [r'|]; [ | done ].
    by destruct (falsy (Some r')).
Qed.

Lemma run_keeps_snapshot tr : ∀ st st' out r d,
  run st tr = Some (st', out) →
  Forall (λ ne, ¬ accepted_change r ne.2) tr →
  documents st !! r = Some d →
  documents st' !! r = Some d.
Proof.
  induction tr as [ | [now e] tr IH ]; intros st st' out r d Hrun Hall Hdoc.
  - simpl in Hrun. by simplify_eq.
  - simpl in Hrun.
    destruct (dispatch st now e) as [[s1 o1]|] eqn:Hd; [ | done ].
    destruct (run s1 tr) as [[s2 o2]|] eqn:Hr; [ | done ]. simplify_eq.
    inversion Hall as [ | ? ? Hhd Htl ]; subst.
    eapply IH; [ done | done | ]. by eapply dispatch_keeps_snapshot.
Qed.

(** ** What a step does to the sockets *)

Lemma on_join_room_sockets sid r now st :
  r ≠ "" →
  sockets (on_join_room sid (Some r) now st).1 =
    alter (λ k, {| activeRoom := Some r; rooms := {[r]} ∪ rooms k |}) sid (sockets st).
Proof. intros Hr. unfold on_join_room. by rewrite falsy_nonempty. Qed.

(** A room a socket is in after a step is one it was in before, the
    room the step made it join, or the room of its own id. *)
Lemma dispatch_rooms st now e st' out sid k' r :
  dispatch st now e = Some (st', out) →
  sockets st' !! sid = Some k' → r ∈ rooms k' →
  (∃ k, sockets st !! sid = Some k ∧ r ∈ rooms k)
  ∨ e = EvJoinRoom sid (Some r) ∨ r = sid.
Proof.
  intros Hd Hk' Hr. destruct e as [s0|s0 roomId|s0 roomId cnt|s0 roomId cur|s0|s0 lst];
    simpl in Hd; destruct (sockets st !! s0) as [k0|] eqn:Hk0; try done;
    inversion Hd as [[Hst]]; clear Hd;
    try (apply (f_equal fst) in Hst; simpl in Hst); subst st'.
  - simpl in Hk'. destruct (decide (s0 = sid)) as [-> | Hne].
    + rewrite lookup_insert_eq in Hk'. simplify_eq. simpl in Hr.
      apply elem_of_singleton in Hr. auto.
    + rewrite lookup_insert_ne in Hk' by done. eauto.
  - destruct roomId as [r'|]; [ | left; eauto ].
    destruct (decide (r' = "")) as [-> | Hr']; [ left; eauto | ].
    rewrite on_join_room_sockets in Hk' by done.
    destruct (decide (s0 = sid)) as [-> | Hne].
    + rewrite lookup_alter_eq, Hk0 in Hk'. simpl in Hk'. simplify_eq. simpl in Hr.
      apply elem_of_union in Hr as [Hr | Hr].
      * apply elem_of_singleton in Hr as ->. auto.
      * left; eauto.
    + rewrite lookup_alter_ne in Hk' by done. left; eauto.
  - left. exists k'. split; [ | done ]. rewrite <- Hk'.
    unfold on_code_change. destruct roomId as [r'|]; [ | done ].
    destruct cnt as [[ | | | c | | ]|]; try done. by destruct (falsy (Some r')).
  - left. exists k'. split; [ | done ]. rewrite <- Hk'.
    unfold on_cursor_update. destruct roomId as [r'|]; [ | done ].
    by destruct (falsy (Some r')).
  - simpl in Hk'. apply lookup_delete_Some in Hk' as [_ Hk']. left; eauto.
Qed.

Lemma run_rooms tr : ∀ st st' out sid k' r,
  run st tr = Some (st', out) →
  sockets st' !! sid = Some k' → r ∈ rooms k' →
  (∃ k, sockets st !! sid = Some k ∧ r ∈ rooms k)
  ∨ (∃ t, (t, EvJoinRoom sid (Some r)) ∈ tr) ∨ r = sid.
Proof.
  induction tr as [ | [now e] tr IH ]; intros st st' out sid k' r Hrun Hk' Hr.
  - simpl in Hrun. simplify_eq. left; eauto.
  - simpl in Hrun.
    destruct (dispatch st now e) as [[s1 o1]|] eqn:Hd; [ | done ].
    destruct (run s1 tr) as [[s2 o2]|] eqn:Hrun1; [ | done ]. simplify_eq.
    destruct (IH _ _ _ _ _ _ Hrun1 Hk' Hr) as [(k1 & Hk1 & Hr1) | [[t Ht] | ->]].
    + destruct (dispatch_rooms _ _ _ _ _ _ _ _ Hd Hk1 Hr1) as [Hold | [-> | ->]].
      * by left.
      * right. left. exists now. apply list_elem_of_here.
      * by right; right.
    + right. left. exists t. by apply list_elem_of_further.
    + by right; right.
Qed.

Lemma dispatch_active_room st now e st' out :
  dispatch st now e = Some (st', out) →
  active_room_joined st → active_room_joined st'.
Proof.
  intros Hd Hinv x k' r Hk' Hact.
  destruct e as [s0|s0 roomId|s0 roomId cnt|s0 roomId cur|s0|s0 lst];
    simpl in Hd; destruct (sockets st !! s0) as [k0|] eqn:Hk0; try done;
    inversion Hd as [[Hst]]; clear Hd;
    try (apply (f_equal fst) in Hst; simpl in Hst); subst st'.
  - simpl in Hk'. destruct (decide (s0 = x)) as [-> | Hne].
    + rewrite lookup_insert_eq in Hk'. by simplify_eq.
    + rewrite lookup_insert_ne in Hk' by done. eauto.
  - destruct roomId as [r'|]; [ | eauto ].
    destruct (decide (r' = "")) as [-> | Hr']; [ eauto | ].
    rewrite on_join_room_sockets in Hk' by done.
    destruct (decide (s0 = x)) as [-> | Hne].
    + rewrite lookup_alter_eq, Hk0 in Hk'. simpl in Hk'. simplify_eq.
      simpl in *. simplify_eq. set_solver.
    + rewrite lookup_alter_ne in Hk' by done. eauto.
  - apply (Hinv x k' r); [ | done ]. rewrite <- Hk'.
    unfold on_code_change. destruct roomId as [r'|]; [ | done ].
    destruct cnt as [[ | | | c | | ]|]; try done. by destruct (falsy (Some r')).
  - apply (Hinv x k' r); [ | done ]. rewrite <- Hk'.
    unfold on_cursor_update. destruct roomId as [r'|]; [ | done ].
    by destruct (falsy (Some r')).
  - simpl in Hk'. apply lookup_delete_Some in Hk' as [_ Hk']. eauto.
Qed.

Lemma run_active_room tr : ∀ st st' out,
  run st tr = Some (st', out) →
  active_room_joined st → active_room_joined st'.
Proof.
  induction tr as [ | [now e] tr IH ]; intros st st' out Hrun Hinv.
  - simpl in Hrun. by simplify_eq.
  - simpl in Hrun.
    destruct (dispatch st now e) as [[s1 o1]|] eqn:Hd; [ | done ].
    destruct (run s1 tr) as [[s2 o2]|] eqn:Hrun1; [ | done ]. simplify_eq.
    eapply IH; [ done | ]. by eapply dispatch_active_room.
Qed.

Lemma start_active_room : active_room_joined start.
Proof. intros x k r Hk. simpl in Hk. by rewrite lookup_empty in Hk. Qed.

(** C9: a connected socket that never joined room [r] is not in the
    room (the room of its own id apart), and its [code_change] with a
    non-empty room id [r] and a string content [c] is accepted all the
    same: the store entry of [r] becomes [c] at the current time and
    every other socket in the room is sent [c].  The handler checks no
    membership. *)
Theorem code_change_without_membership
    (tr : list (Z * Event)) (st : Server) (out0 : list Emission)
    (sid r c : string) (now : Z) :
  run start tr = Some (st, out0) →
  is_Some (sockets st !! sid) →
  (∀ t, (t, EvJoinRoom sid (Some r)) ∉ tr) →
  r ≠ "" →
  (r ≠ sid → sid ∉ in_room r st)
  ∧ ∃ st' out,
      dispatch st now (EvCodeChange sid (Some r) (Some (JSON.Str c))) = Some (st', out)
      ∧ documents st' !! r = Some {| content := c; updatedAt := now |}
      ∧ (∀ x m, (x, m) ∈ out ↔ m = code_change c ∧ x ≠ sid ∧ x ∈ in_room r st).
Proof.
  intros Hrun [k Hk] Hnever Hr. split.
  { intros Hown (k' & Hk' & Hin)%elem_of_in_room.
    destruct (run_rooms _ _ _ _ _ _ _ Hrun Hk' Hin) as [(k0 & Hk0 & _) | [[t Ht] | ->]].
    - simpl in Hk0. by rewrite lookup_empty in Hk0.
    - by apply (Hnever t).
    - done. }
  unfold dispatch. rewrite Hk, on_code_change_accepted by done.
  eexists _, _. split; [ reflexivity | ]. split; [ apply lookup_insert_eq | ].
  intros x m. rewrite elem_of_emit, elem_of_socket_to. tauto.
Qed.

Lemma code_change_without_membership_witness :
  ∃ st out0,
    run start outsider_trace = Some (st, out0)
    ∧ is_Some (sockets st !! "a")
    ∧ (∀ t, (t, EvJoinRoom "a" (Some "demo")) ∉ outsider_trace)
    ∧ "demo" ≠ ""
    ∧ ("demo" ≠ "a" → "a" ∉ in_room "demo" st)
    ∧ ∃ st' out,
        dispatch st 3 (EvCodeChange "a" (Some "demo") (Some (JSON.Str "x"))) = Some (st', out)
        ∧ documents st' !! "demo" = Some {| content := "x"; updatedAt := 3 |}
        ∧ (∀ x m, (x, m) ∈ out ↔
             m = code_change "x" ∧ x ≠ "a" ∧ x ∈ in_room "demo" st).
Proof.
  assert (Hnever : ∀ t, (t, EvJoinRoom "a" (Some "demo")) ∉ outsider_trace).
  { intros t Hin. unfold outsider_trace in Hin.
    repeat (apply elem_of_cons in Hin as [Hin | Hin]; [ discriminate | ]).
    by apply elem_of_nil in Hin. }
  eexists _, _. split; [ reflexivity | ].
  assert (Hconn : is_Some (sockets (on_join_room "b" (Some "demo") 2
            (on_connection "b" (on_connection "a" start))).1 !! "a")).
  { eexists. vm_compute. reflexivity. }
  split; [ exact Hconn | ]. split; [ exact Hnever | ]. split; [ discriminate | ].
  apply (code_change_without_membership outsider_trace _ _ "a" "demo" "x" 3
           eq_refl Hconn Hnever).
  discriminate.
Defined.

(** ** Joining a second room *)

(** C2, as stated, fails: after socket [a] joined [r1] and then [r2]
    without disconnecting, its recorded room is [r2] but it is in both
    rooms (and in the room of its id), and a [code_change] that [b]
    addresses to [r1] is still sent to [a]. *)
Lemma rejoin_still_receives_old_room :
  ∃ st out,
    run start rejoin_trace = Some (st, out)
    ∧ sockets st !! "a"
        = Some {| activeRoom := Some "r2"; rooms := {["a"; "r1"; "r2"]} |}
    ∧ snd <$> dispatch st 5 (EvCodeChange "b" (Some "r1") (Some (JSON.Str "x")))
        = Some [("a", code_change "x")].
Proof.
  eexists _, _. split; [ reflexivity | ]. split; vm_compute; reflexivity.
Qed.

(** C2, amended: a join with a non-empty room id [r] replaces the socket's
    one recorded room ([activeRoom]) by [r] and adds [r] to the rooms the
    socket is in; the socket stays in every room it joined before and is
    still sent what others emit to those rooms.  No other socket changes,
    and the join emits only the snapshot to the joiner and [peer_joined]
    to the other sockets of [r]: a room left behind gets no notice. *)
Theorem join_room_replaces_active_room
    (sid r : string) (now : Z) (st : Server) (k : Socket) :
  sockets st !! sid = Some k →
  r ≠ "" →
  ∃ st' out,
    dispatch st now (EvJoinRoom sid (Some r)) = Some (st', out)
    ∧ sockets st' !! sid = Some {| activeRoom := Some r; rooms := {[r]} ∪ rooms k |}
    ∧ (∀ c, c ≠ sid → sockets st' !! c = sockets st !! c)
    ∧ (∀ r0, r0 ∈ rooms k →
         sid ∈ in_room r0 st'
         ∧ ∀ s msg, s ≠ sid → (sid, msg) ∈ emit (socket_to s r0 st') msg)
    ∧ (∀ c m, (c, m) ∈ out →
         (c = sid ∧ ∃ d, m = initial_state (Some d) ∧ documents st' !! r = Some d)
         ∨ (m = peer_joined sid ∧ c ≠ sid ∧ c ∈ in_room r st)).
Proof.
  intros Hk Hr. unfold dispatch. rewrite Hk.
  destruct (on_join_room sid (Some r) now st) as [st' out] eqn:Hj.
  assert (Hs : sockets st' =
    alter (λ k, {| activeRoom := Some r; rooms := {[r]} ∪ rooms k |}) sid (sockets st)).
  { rewrite <- (on_join_room_sockets sid r now st Hr). by rewrite Hj. }
  assert (Hself : sockets st' !! sid =
    Some {| activeRoom := Some r; rooms := {[r]} ∪ rooms k |}).
  { by rewrite Hs, lookup_alter_eq, Hk. }
  assert (Hothers : ∀ c, c ≠ sid → sockets st' !! c = sockets st !! c).
  { intros c Hc. by rewrite Hs, lookup_alter_ne. }
  eexists _, _. split; [ reflexivity | ]. split; [ done | ]. split; [ done | ].
  split.
  - intros r0 Hr0.
    assert (Hin : sid ∈ in_room r0 st').
    { apply elem_of_in_room. eexists. split; [ exact Hself | ]. simpl. set_solver. }
    split; [ done | ]. intros s msg Hs'.
    apply elem_of_emit. split; [ | done ]. apply elem_of_socket_to. split; [ congruence | done ].
  - intros c m Hin. unfold on_join_room in Hj. rewrite (falsy_nonempty r Hr) in Hj.
    inversion Hj as [[Hst Hout]]. clear Hj. rewrite <- Hout in Hin.
    apply elem_of_cons in Hin as [Heq | Hin].
    + left. inversion Heq; subst c m. split; [ done | ].
      destruct (documents st !! r) as [d|] eqn:Hd.
      * exists d. by rewrite Hd.
      * eexists. split; simpl; by rewrite lookup_insert_eq.
    + right. apply elem_of_emit in Hin as [Hto ->].
      apply elem_of_socket_to in Hto as [Hc Hto]. split; [ done | ]. split; [ done | ].
      apply elem_of_in_room in Hto as (k' & Hk' & Hrk'). simpl in Hk'.
      rewrite lookup_alter_ne in Hk' by done. apply elem_of_in_room. eauto.
Qed.

Lemma join_room_replaces_active_room_witness :
  let st := (on_join_room "a" (Some "r1") 1 (on_connection "a" start)).1 in
  let k := {| activeRoom := Some "r1"; rooms := {["a"; "r1"]} |} in
  sockets st !! "a" = Some k
  ∧ "r2" ≠ ""
  ∧ ∃ st' out,
    dispatch st 2 (EvJoinRoom "a" (Some "r2")) = Some (st', out)
    ∧ sockets st' !! "a" = Some {| activeRoom := Some "r2"; rooms := {["r2"]} ∪ rooms k |}
    ∧ (∀ c, c ≠ "a" → sockets st' !! c = sockets st !! c)
    ∧ (∀ r0, r0 ∈ rooms k →
         "a" ∈ in_room r0 st'
         ∧ ∀ s msg, s ≠ "a" → ("a", msg) ∈ emit (socket_to s r0 st') msg)
    ∧ (∀ c m, (c, m) ∈ out →
         (c = "a" ∧ ∃ d, m = initial_state (Some d) ∧ documents st' !! "r2" = Some d)
         ∨ (m = peer_joined "a" ∧ c ≠ "a" ∧ c ∈ in_room "r2" st)).
Proof.
  assert (Hk : sockets (on_join_room "a" (Some "r1") 1 (on_connection "a" start)).1 !! "a"
               = Some {| activeRoom := Some "r1"; rooms := {["a"; "r1"]} |}).
  { vm_compute. reflexivity. }
  split; [ exact Hk | ]. split; [ discriminate | ].
  apply (join_room_replaces_active_room "a" "r2" 2 _ _ Hk). discriminate.
Defined.

(** ** Which events create a room *)

Ltac no_opening :=
  intros ? [[_ [? ?]] | [_ (? & ? & ?)]]; discriminate.

(** A step leaves the room store as it is, or sets one entry, stamped
    with the current time, for the one room the event opens. *)
Lemma dispatch_documents st now e st' out :
  dispatch st now e = Some (st', out) →
  (documents st' = documents st ∧ ∀ r, opens r e → is_Some (documents st !! r))
  ∨ ∃ r d, documents st' = <[r := d]> (documents st)
           ∧ updatedAt d = now
           ∧ (accepted_change r e ∨ documents st !! r = None)
           ∧ ∀ r', opens r' e ↔ r' = r.
Proof.
  intros Hd. destruct e as [s0|s0 roomId|s0 roomId cnt|s0 roomId cur|s0|s0 lst];
    simpl in Hd; destruct (sockets st !! s0) as [k0|] eqn:Hk0; try done;
    inversion Hd as [[Hst]]; clear Hd;
    try (apply (f_equal fst) in Hst; simpl in Hst); subst st'.
  - left. split; [ done | no_opening ].
  - destruct roomId as [r|].
    2:{ left. split; [ done | no_opening ]. }
    destruct (decide (r = "")) as [-> | Hr].
    { left. split; [ done | ].
      intros r [[Hne [? ?]] | [_ (? & ? & ?)]]; [ | discriminate ]. congruence. }
    rewrite on_join_room_documents by done.
    destruct (documents st !! r) as [d|] eqn:Hdoc.
    + left. split; [ done | ].
      intros r' [[_ [? ?]] | [_ (? & ? & ?)]]; [ | discriminate ].
      simplify_eq. eauto.
    + right. eexists r, _. split; [ reflexivity | ]. split; [ done | ].
      split; [ by right | ]. intros r'. split.
      * intros [[_ [? ?]] | [_ (? & ? & ?)]]; [ | discriminate ]. congruence.
      * intros ->. left. split; [ done | eauto ].
  - destruct roomId as [r|].
    2:{ left. split; [ done | no_opening ]. }
    destruct (decide (r = "")) as [-> | Hr].
    { left. split; [ by destruct cnt as [[ | | | c | | ]|] | ].
      intros r [[_ [? ?]] | [Hne (? & ? & ?)]]; [ discriminate | ]. congruence. }
    destruct cnt as [[ | | | c | | ]|];
      try (left; split; [ done | no_opening ]).
    rewrite on_code_change_accepted by done. simpl.
    right. eexists r, _. split; [ reflexivity | ]. split; [ done | ].
    split; [ left; split; [ done | eauto ] | ]. intros r'. split.
    + intros [[_ [? ?]] | [_ (? & ? & ?)]]; [ discriminate | ]. congruence.
    + intros ->. right. split; [ done | eauto ].
  - left. split; [ | no_opening ]. unfold on_cursor_update.
    destruct roomId as [r|]; [ | done ]. by destruct (falsy (Some r)).
  - left. split; [ done | no_opening ].
Qed.

Lemma run_dom tr : ∀ st st' out r,
  run st tr = Some (st', out) →
  (r ∈ dom (documents st') ↔
   r ∈ dom (documents st) ∨ ∃ ne, ne ∈ tr ∧ opens r ne.2).
Proof.
  induction tr as [ | [now e] tr IH ]; intros st st' out r Hrun.
  - simpl in Hrun. simplify_eq. split; [ by left | ].
    intros [H | (ne & Hin & _)]; [ done | ]. by apply elem_of_nil in Hin.
  - simpl in Hrun.
    destruct (dispatch st now e) as [[s1 o1]|] eqn:Hd; [ | done ].
    destruct (run s1 tr) as [[s2 o2]|] eqn:Hrun1; [ | done ]. simplify_eq.
    rewrite (IH _ _ _ r Hrun1).
    assert (Hstep : r ∈ dom (documents s1) ↔ r ∈ dom (documents st) ∨ opens r e).
    { destruct (dispatch_documents _ _ _ _ _ Hd)
        as [[-> Hex] | (r0 & d & -> & _ & _ & Hop)].
      - split; [ by left | ]. intros [H | H]; [ done | ].
        apply elem_of_dom. by apply Hex.
      - rewrite dom_insert_L, elem_of_union, elem_of_singleton, (Hop r). tauto. }
    rewrite Hstep. split.
    + intros [[H | H] | (ne & Hin & H)]; [ by left | | ].
      * right. exists (now, e). split; [ apply list_elem_of_here | done ].
      * right. exists ne. split; [ by apply list_elem_of_further | done ].
    + intros [H | (ne & Hin & H)]; [ by left; left | ].
      apply elem_of_cons in Hin as [-> | Hin]; [ by left; right | ].
      right. eauto.
Qed.

Lemma room_exists_nonempty tr st out r :
  run start tr = Some (st, out) → r ∈ dom (documents st) → r ≠ "".
Proof.
  intros Hrun Hdom. apply (run_dom _ _ _ _ r Hrun) in Hdom.
  destruct Hdom as [H | (ne & _ & [[Hr _] | [Hr _]])]; [ | done | done ].
  simpl in H. rewrite dom_empty_L in H. by apply elem_of_empty in H.
Qed.

(** C1, as stated, fails: a socket that joined nothing sends a
    [code_change] for room [r]; the store then has an entry for [r]
    although no event of the trace is a join. *)
Lemma room_created_without_join :
  ∃ st out,
    run start change_only_trace = Some (st, out)
    ∧ documents st !! "r" = Some {| content := "x"; updatedAt := 1 |}
    ∧ Forall (λ ne, ∀ sid roomId, ne.2 ≠ EvJoinRoom sid roomId) change_only_trace.
Proof.
  eexists _, _. split; [ reflexivity | ]. split; [ vm_compute; reflexivity | ].
  unfold change_only_trace. repeat constructor; discriminate.
Qed.

(** C1, amended: after any trace from the start, the store has an entry
    for room [r] if and only if [r] is not empty and a [join_room] naming
    [r], or a [code_change] naming [r] with a string content, has been
    handled.  No other event creates an entry. *)
Theorem room_exists_iff_opened
    (tr : list (Z * Event)) (st : Server) (out : list Emission) (r : string) :
  run start tr = Some (st, out) →
  (r ∈ dom (documents st) ↔
   r ≠ "" ∧ ((∃ t sid, (t, EvJoinRoom sid (Some r)) ∈ tr)
            ∨ (∃ t sid c, (t, EvCodeChange sid (Some r) (Some (JSON.Str c))) ∈ tr))).
Proof.
  intros Hrun. rewrite (run_dom _ _ _ _ r Hrun). simpl. rewrite dom_empty_L. split.
  - intros [H | ([t e] & Hin & Hop)]; [ by apply elem_of_empty in H | ].
    simpl in Hop. destruct Hop as [[Hr [sid ->]] | [Hr (sid & c & ->)]]; eauto 8.
  - intros [Hr [(t & sid & Hin) | (t & sid & c & Hin)]]; right;
      eexists; (split; [ exact Hin | ]); simpl.
    + left. split; [ done | eauto ].
    + right. split; [ done | eauto ].
Qed.

Lemma room_exists_iff_opened_witness :
  ∃ st out,
    run start join_trace = Some (st, out)
    ∧ ("demo" ∈ dom (documents st) ↔
       "demo" ≠ ""
       ∧ ((∃ t sid, (t, EvJoinRoom sid (Some "demo")) ∈ join_trace)
          ∨ (∃ t sid c,
               (t, EvCodeChange sid (Some "demo") (Some (JSON.Str c))) ∈ join_trace))).
Proof.
  eexists _, _. split; [ reflexivity | ].
  apply (room_exists_iff_opened join_trace _ _ "demo" eq_refl).
Defined.

(** ** Time stamps *)

Lemma monotone_from_app tr1 : ∀ t tr2,
  monotone_from t (tr1 ++ tr2) →
  monotone_from t tr1 ∧ monotone_from (last_now t tr1) tr2.
Proof.
  induction tr1 as [ | [now e] tr1 IH ]; intros t tr2 Hm; simpl in *.
  - done.
  - destruct Hm as [Hle Hm]. destruct (IH _ _ Hm). auto.
Qed.

Lemma last_now_app tr1 : ∀ t tr2,
  last_now t (tr1 ++ tr2) = last_now (last_now t tr1) tr2.
Proof. induction tr1 as [ | [now e] tr1 IH ]; intros t tr2; simpl; auto. Qed.

Lemma dispatch_updatedAt st now e st' out t :
  dispatch st now e = Some (st', out) →
  t ≤ now → stamped_by t st →
  stamped_by now st'
  ∧ ∀ r d, documents st !! r = Some d →
      ∃ d', documents st' !! r = Some d' ∧ updatedAt d ≤ updatedAt d'.
Proof.
  intros Hd Hle Hb. unfold stamped_by in *.
  destruct (dispatch_documents _ _ _ _ _ Hd) as [[Heq _] | (r0 & d0 & Heq & Hnow & _ & _)];
    rewrite Heq.
  - split.
    + intros r d Hr. specialize (Hb r d Hr). lia.
    + intros r d Hr. exists d. split; [ done | lia ].
  - split.
    + intros r d Hr. destruct (decide (r0 = r)) as [-> | Hne].
      * rewrite lookup_insert_eq in Hr. simplify_eq. lia.
      * rewrite lookup_insert_ne in Hr by done. specialize (Hb r d Hr). lia.
    + intros r d Hr. destruct (decide (r0 = r)) as [-> | Hne].
      * exists d0. rewrite lookup_insert_eq. split; [ done | ].
        specialize (Hb r d Hr). lia.
      * exists d. rewrite lookup_insert_ne by done. split; [ done | lia ].
Qed.

Lemma run_updatedAt tr : ∀ st st' out t,
  run st tr = Some (st', out) →
  monotone_from t tr → stamped_by t st →
  stamped_by (last_now t tr) st'
  ∧ ∀ r d, documents st !! r = Some d →
      ∃ d', documents st' !! r = Some d' ∧ updatedAt d ≤ updatedAt d'.
Proof.
  induction tr as [ | [now e] tr IH ]; intros st st' out t Hrun Hm Hb.
  - simpl in *. simplify_eq. split; [ done | ]. intros r d Hr. exists d. split; [ done | lia ].
  - simpl in Hrun, Hm. destruct Hm as [Hle Hm].
    destruct (dispatch st now e) as [[s1 o1]|] eqn:Hd; [ | done ].
    destruct (run s1 tr) as [[s2 o2]|] eqn:Hrun1; [ | done ]. simplify_eq.
    destruct (dispatch_updatedAt _ _ _ _ _ _ Hd Hle Hb) as [Hb1 Hstep].
    destruct (IH _ _ _ _ Hrun1 Hm Hb1) as [Hb2 Hrest].
    split; [ done | ]. intros r d Hr.
    destruct (Hstep r d Hr) as (d1 & Hr1 & Hle1).
    destruct (Hrest r d1 Hr1) as (d2 & Hr2 & Hle2).
    exists d2. split; [ done | lia ].
Qed.

(** C8: under a clock that never goes back, the [updatedAt] of a room
    never decreases along a trace: a snapshot [d1] the room has at some
    point is followed, after any further events, by a snapshot [d2] with
    [updatedAt d1 ≤ updatedAt d2]; and a mutation accepted next, at a
    clock reading [now] not before the last one, sets [updatedAt] to
    [now], which is not earlier than the value it replaces. *)
Theorem updatedAt_never_decreases
    (t0 : Z) (tr1 tr2 : list (Z * Event)) (s1 s2 : Server)
    (o1 o2 : list Emission) (r : string) (d1 : DocumentState) :
  monotone_from t0 (tr1 ++ tr2) →
  run start tr1 = Some (s1, o1) →
  run s1 tr2 = Some (s2, o2) →
  documents s1 !! r = Some d1 →
  ∃ d2,
    documents s2 !! r = Some d2
    ∧ updatedAt d1 ≤ updatedAt d2
    ∧ ∀ sid c now,
        last_now t0 (tr1 ++ tr2) ≤ now →
        documents (on_code_change sid (Some r) (Some (JSON.Str c)) now s2).1 !! r
          = Some {| content := c; updatedAt := now |}
        ∧ updatedAt d2 ≤ now.
Proof.
  intros Hm Hrun1 Hrun2 Hr.
  apply monotone_from_app in Hm as [Hm1 Hm2].
  assert (Hb0 : stamped_by t0 start).
  { intros r' d' H. simpl in H. by rewrite lookup_empty in H. }
  destruct (run_updatedAt _ _ _ _ _ Hrun1 Hm1 Hb0) as [Hb1 _].
  destruct (run_updatedAt _ _ _ _ _ Hrun2 Hm2 Hb1) as [Hb2 Hmono].
  destruct (Hmono r d1 Hr) as (d2 & Hr2 & Hle).
  exists d2. split; [ done | ]. split; [ done | ].
  intros sid c now Hnow. rewrite last_now_app in Hnow.
  assert (Hne : r ≠ "").
  { assert (Hdom : r ∈ dom (documents s1)) by (apply elem_of_dom; eauto).
    apply (room_exists_nonempty _ _ _ _ Hrun1) in Hdom. exact Hdom. }
  rewrite on_code_change_accepted by done. simpl.
  split; [ apply lookup_insert_eq | ]. specialize (Hb2 r d2 Hr2). lia.
Qed.

Lemma updatedAt_never_decreases_witness :
  ∃ s1 o1 s2 o2,
    monotone_from 0 (join_trace ++ edit_trace)
    ∧ run start join_trace = Some (s1, o1)
    ∧ run s1 edit_trace = Some (s2, o2)
    ∧ documents s1 !! "demo" = Some {| content := ""; updatedAt := 1 |}
    ∧ ∃ d2,
        documents s2 !! "demo" = Some d2
        ∧ 1 ≤ updatedAt d2
        ∧ ∀ sid c now,
            last_now 0 (join_trace ++ edit_trace) ≤ now →
            documents (on_code_change sid (Some "demo") (Some (JSON.Str c)) now s2).1
              !! "demo" = Some {| content := c; updatedAt := now |}
            ∧ updatedAt d2 ≤ now.
Proof.
  assert (Hm : monotone_from 0 (join_trace ++ edit_trace)) by (simpl; lia).
  eexists _, _, _, _. split; [ exact Hm | ].
  split; [ reflexivity | ]. split; [ reflexivity | ].
  assert (Hd : documents (on_join_room "a" (Some "demo") 1 (on_connection "a" start)).1
                 !! "demo" = Some {| content := ""; updatedAt := 1 |}).
  { vm_compute. reflexivity. }
  split; [ exact Hd | ].
  apply (updatedAt_never_decreases 0 join_trace edit_trace _ _ _ _ "demo" _
           Hm eq_refl eq_refl Hd).
Defined.

(** ** The completion endpoint *)

Import Completions.

Lemma wrapped_has_shape (t : string) : has_completions_shape (wrapped t) = true.
Proof.
  unfold has_completions_shape, wrapped. rewrite lookup_singleton_eq. simpl.
  rewrite lookup_insert_eq, lookup_insert_ne, lookup_singleton_eq by done. done.
Qed.

(** The scenario of the spec: the provider answers the text [Hello],
    which is no JSON, and the endpoint wraps it. *)
Example hello_is_wrapped :
  completions configured (answering "Hello") (Some print_request)
    = res_json (wrapped "Hello")
  ∧ parts (gemini_request configured "print(" "python" 6 None)
    = [ systemPrompt;
        join newline [ "Language: python"; "Cursor offset: 6";
                       "---- CURRENT FILE START ----"; "print("; "<CURSOR>";
                       "---- CURRENT FILE END ----" ] ].
Proof. split; vm_compute; reflexivity. Qed.

Lemma sent_wrapped (t : string) : JSON.sent (wrapped t) = wrapped t.
Proof.
  unfold wrapped. cbn [JSON.sent]. rewrite map_fmap_singleton. cbn [JSON.sent map].
  by rewrite fmap_insert, map_fmap_singleton.
Qed.

Lemma res_json_body (v : JSON.value) : body (res_json v) = Some (JSON.sent v).
Proof. reflexivity. Qed.

(** A number too large for a double is answered as [null]. *)
Example huge_number_is_null :
  completions configured (answering "1e400") (Some print_request)
    = {| status := 200; body := Some JSON.Null |}.
Proof. vm_compute. reflexivity. Qed.

(** C5, as stated, fails: the text [{}] is valid JSON that has not the
    shape asked for, and the endpoint answers with the parsed [{}], not
    with the one wrapped completion. *)
Lemma valid_json_of_other_shape_returned :
  JSON.parse "{}" = Some (JSON.Object ∅)
  ∧ has_completions_shape (JSON.Object ∅) = false
  ∧ completions configured (answering "{}") (Some print_request)
      = res_json (JSON.Object ∅)
  ∧ res_json (JSON.Object ∅) ≠ res_json (wrapped "{}").
Proof.
  split; [ vm_compute; reflexivity | ]. split; [ reflexivity | ].
  split; [ vm_compute; reflexivity | ].
  intros Heq. assert (Hshape := wrapped_has_shape "{}").
  apply (f_equal body) in Heq. rewrite !res_json_body, sent_wrapped in Heq.
  assert (Hw : wrapped "{}" = JSON.sent (JSON.Object ∅)) by congruence.
  rewrite Hw in Hshape. cbn [JSON.sent] in Hshape. rewrite fmap_empty in Hshape.
  discriminate.
Qed.

(** C5, amended: with a credential configured and a provider call that
    resolves with text [T], a non-empty [T] that [JSON.parse] accepts is
    answered with the value parsed, whatever its shape, as
    [JSON.stringify] writes it (a number is the nearest double; one
    beyond the doubles is written [null]); a non-empty [T] that
    [JSON.parse] refuses is answered with one completion whose
    [insertText] is [T] and whose [displayText] is ['Gemini suggestion'];
    and an empty or missing text is answered with status 500. *)
Theorem completions_parse_or_wrap
    (env : Env) (axios_post : GeminiRequest → AxiosResult)
    (req_body : option Body) (text : option string) :
  falsy (GEMINI_API_KEY env) = false →
  (let b := default empty_body req_body in
   axios_post (gemini_request env (default "" (code b))
                 (default "typescript" (language b)) (default 0 (cursor b))
                 (instructions b)) = Resolved text) →
  (∀ T v, text = Some T → T ≠ "" → JSON.parse T = Some v →
     completions env axios_post req_body
       = {| status := 200; body := Some (JSON.sent v) |})
  ∧ (∀ T, text = Some T → T ≠ "" → JSON.parse T = None →
       completions env axios_post req_body =
         {| status := 200;
            body := Some (JSON.Object {[
              "completions" := JSON.Array [
                JSON.Object (<["insertText" := JSON.Str T]>
                               {["displayText" := JSON.Str "Gemini suggestion"]}) ] ]}) |})
  ∧ (text = None ∨ text = Some "" →
       completions env axios_post req_body =
         {| status := 500;
            body := Some (JSON.Object
              {["error" := JSON.Str "No completion returned from Gemini"]}) |}).
Proof.
  intros Hkey Hpost. unfold completions. rewrite Hkey. simpl in Hpost. rewrite Hpost.
  split; [ | split ].
  - intros T v -> HT Hp. unfold respond_text. rewrite bool_decide_eq_false_2 by done.
    by rewrite Hp.
  - intros T -> HT Hp. unfold respond_text. rewrite bool_decide_eq_false_2 by done.
    rewrite Hp. unfold res_json, res_status_json. cbn [Z.eqb orb].
    by rewrite sent_wrapped.
  - intros [-> | ->]; unfold respond_text, res_status_json, error_body;
      cbn [JSON.sent]; by rewrite map_fmap_singleton.
Qed.

Lemma completions_parse_or_wrap_witness :
  falsy (GEMINI_API_KEY configured) = false
  ∧ answering "[1e400, 0.5]"
      (gemini_request configured "print(" "python" 6 None)
      = Resolved (Some "[1e400, 0.5]")
  ∧ JSON.parse "[1e400, 0.5]"
      = Some (JSON.Array [ JSON.Number (JSON.Infinite false);
                           JSON.Number (JSON.Finite false 4503599627370496 (-53)) ])
  ∧ (∀ T v, Some "[1e400, 0.5]" = Some T → T ≠ "" → JSON.parse T = Some v →
       completions configured (answering "[1e400, 0.5]") (Some print_request)
         = {| status := 200; body := Some (JSON.sent v) |})
  ∧ (∀ T, Some "[1e400, 0.5]" = Some T → T ≠ "" → JSON.parse T = None →
       completions configured (answering "[1e400, 0.5]") (Some print_request) =
         {| status := 200;
            body := Some (JSON.Object {[
              "completions" := JSON.Array [
                JSON.Object (<["insertText" := JSON.Str T]>
                               {["displayText" := JSON.Str "Gemini suggestion"]}) ] ]}) |})
  ∧ (Some "[1e400, 0.5]" = None ∨ Some "[1e400, 0.5]" = Some "" →
       completions configured (answering "[1e400, 0.5]") (Some print_request) =
         {| status := 500;
            body := Some (JSON.Object
              {["error" := JSON.Str "No completion returned from Gemini"]}) |}).
Proof.
  split; [ reflexivity | ]. split; [ reflexivity | ].
  split; [ vm_compute; reflexivity | ].
  apply (completions_parse_or_wrap configured (answering "[1e400, 0.5]")
           (Some print_request) (Some "[1e400, 0.5]")); reflexivity.
Defined.



(** * Further properties of the server *)

Import History.

(** ** Disconnecting *)

Lemma in_room_delete (x sid r : string) (st : Server) :
  x ∈ in_room r {| documents := documents st; sockets := delete sid (sockets st) |}
  ↔ x ≠ sid ∧ x ∈ in_room r st.
Proof.
  rewrite !elem_of_in_room. simpl. split.
  - intros (k & Hk & Hr). apply lookup_delete_Some in Hk as [Hne Hk]. eauto.
  - intros (Hne & k & Hk & Hr). exists k. split; [ | done ].
    apply lookup_delete_Some. auto.
Qed.

(** X1: when a connected socket disconnects, [peer_left] with its id is
    emitted once to each other socket in its recorded room, and to
    nobody when it recorded none; the room store is untouched, and the
    socket is then in no room at all. *)
Theorem disconnect_notifies_active_room
    (sid : string) (k : Socket) (now : Z) (st : Server) :
  sockets st !! sid = Some k →
  ∃ st' out,
    dispatch st now (EvDisconnect sid) = Some (st', out)
    ∧ documents st' = documents st
    ∧ sockets st' !! sid = None
    ∧ (∀ x r, x ∈ in_room r st' ↔ x ≠ sid ∧ x ∈ in_room r st)
    ∧ NoDup out
    ∧ (∀ x m, (x, m) ∈ out ↔
         m = peer_left sid ∧ x ≠ sid
         ∧ ∃ r, activeRoom k = Some r ∧ r ≠ "" ∧ x ∈ in_room r st).
Proof.
  intros Hk. unfold dispatch. rewrite Hk. unfold on_disconnect. rewrite Hk.
  eexists _, _. split; [ reflexivity | ]. split; [ done | ].
  split; [ apply lookup_delete_eq | ].
  split; [ intros x r; apply in_room_delete | ].
  destruct (activeRoom k) as [r|] eqn:Hact.
  - destruct (decide (r = "")) as [-> | Hr].
    + split; [ constructor | ]. intros x m. split.
      * intros Hin. by apply elem_of_nil in Hin.
      * intros (_ & _ & r & Heq & Hr & _). congruence.
    + rewrite (falsy_nonempty r Hr). split; [ apply NoDup_emit | ].
      intros x m. rewrite elem_of_emit, elem_of_socket_to. split.
      * intros [[Hne Hin] ->]. eauto 7.
      * intros (-> & Hne & r' & Heq & _ & Hin). by simplify_eq.
  - split; [ constructor | ]. intros x m. split.
    + intros Hin. by apply elem_of_nil in Hin.
    + intros (_ & _ & r & Heq & _). discriminate.
Qed.

Lemma disconnect_notifies_active_room_witness :
  let st := (on_join_room "b" (Some "demo") 2
               (on_join_room "a" (Some "demo") 1
                  (on_connection "b" (on_connection "a" start))).1).1 in
  let k := {| activeRoom := Some "demo"; rooms := {["a"; "demo"]} |} in
  sockets st !! "a" = Some k
  ∧ ∃ st' out,
    dispatch st 3 (EvDisconnect "a") = Some (st', out)
    ∧ documents st' = documents st
    ∧ sockets st' !! "a" = None
    ∧ (∀ x r, x ∈ in_room r st' ↔ x ≠ "a" ∧ x ∈ in_room r st)
    ∧ NoDup out
    ∧ (∀ x m, (x, m) ∈ out ↔
         m = peer_left "a" ∧ x ≠ "a"
         ∧ ∃ r, activeRoom k = Some r ∧ r ≠ "" ∧ x ∈ in_room r st).
Proof.
  assert (Hk : sockets (on_join_room "b" (Some "demo") 2
               (on_join_room "a" (Some "demo") 1
                  (on_connection "b" (on_connection "a" start))).1).1 !! "a"
             = Some {| activeRoom := Some "demo"; rooms := {["a"; "demo"]} |}).
  { vm_compute. reflexivity. }
  split; [ exact Hk | ].
  apply (disconnect_notifies_active_room "a" _ 3 _ Hk).
Defined.

(** ** Joining *)

Lemma in_room_alter_ne (x sid r : string) (f : Socket → Socket)
    (docs : gmap string DocumentState) (st : Server) :
  x ≠ sid →
  x ∈ in_room r {| documents := docs; sockets := alter f sid (sockets st) |}
  ↔ x ∈ in_room r st.
Proof.
  intros Hne. rewrite !elem_of_in_room. simpl. by rewrite lookup_alter_ne.
Qed.

(** X2: a join with a non-empty room id creates the room, empty and
    stamped with the current time, only if the store has none; an
    existing snapshot is left as it is, and so is every other room.  The
    joiner alone is sent the snapshot the room then has, and every other
    socket of the room is sent [peer_joined] with the joiner's id, once. *)
Theorem join_room_snapshot
    (sid r : string) (k : Socket) (now : Z) (st : Server) :
  sockets st !! sid = Some k →
  r ≠ "" →
  ∃ st' out snapshot,
    dispatch st now (EvJoinRoom sid (Some r)) = Some (st', out)
    ∧ documents st' !! r = Some snapshot
    ∧ snapshot = default {| content := ""; updatedAt := now |} (documents st !! r)
    ∧ (∀ r', r' ≠ r → documents st' !! r' = documents st !! r')
    ∧ NoDup out
    ∧ (∀ x m, (x, m) ∈ out ↔
         (x = sid ∧ m = initial_state (Some snapshot))
         ∨ (x ≠ sid ∧ m = peer_joined sid ∧ x ∈ in_room r st)).
Proof.
  intros Hk Hr. unfold dispatch. rewrite Hk. unfold on_join_room.
  rewrite (falsy_nonempty r Hr).
  set (docs := match documents st !! r with
               | Some _ => documents st
               | None => <[r := {| content := ""; updatedAt := now |}]> (documents st)
               end).
  assert (Hsnap : docs !! r
            = Some (default {| content := ""; updatedAt := now |} (documents st !! r))).
  { unfold docs. destruct (documents st !! r) eqn:Hd; simpl; [ done | ].
    apply lookup_insert_eq. }
  eexists _, _, _. split; [ reflexivity | ]. split; [ exact Hsnap | ].
  split; [ done | ]. split.
  { intros r' Hne. simpl. unfold docs. destruct (documents st !! r); [ done | ].
    by rewrite lookup_insert_ne. }
  split.
  { constructor; [ | apply NoDup_emit ].
    rewrite elem_of_emit, elem_of_socket_to. tauto. }
  intros x m. rewrite elem_of_cons, elem_of_emit, elem_of_socket_to, Hsnap. split.
  - intros [Heq | [[Hne Hin] ->]].
    + inversion Heq; subst. by left.
    + right. split; [ done | ]. split; [ done | ].
      by eapply in_room_alter_ne.
  - intros [[-> ->] | (Hne & -> & Hin)]; [ by left | ].
    right. split; [ | done ]. split; [ done | ].
    by apply in_room_alter_ne.
Qed.

Lemma join_room_snapshot_witness :
  let st := on_connection "a" start in
  sockets st !! "a" = Some {| activeRoom := None; rooms := {["a"]} |}
  ∧ "demo" ≠ ""
  ∧ ∃ st' out snapshot,
    dispatch st 1 (EvJoinRoom "a" (Some "demo")) = Some (st', out)
    ∧ documents st' !! "demo" = Some snapshot
    ∧ snapshot = default {| content := ""; updatedAt := 1 |} (documents st !! "demo")
    ∧ (∀ r', r' ≠ "demo" → documents st' !! r' = documents st !! r')
    ∧ NoDup out
    ∧ (∀ x m, (x, m) ∈ out ↔
         (x = "a" ∧ m = initial_state (Some snapshot))
         ∨ (x ≠ "a" ∧ m = peer_joined "a" ∧ x ∈ in_room "demo" st)).
Proof.
  assert (Hk : sockets (on_connection "a" start) !! "a"
             = Some {| activeRoom := None; rooms := {["a"]} |}).
  { vm_compute. reflexivity. }
  split; [ exact Hk | ]. split; [ discriminate | ].
  apply (join_room_snapshot "a" "demo" _ 1 _ Hk). discriminate.
Defined.



(** ** The room store along a trace *)

Lemma dispatch_written st now e st' out r :
  dispatch st now e = Some (st', out) →
  content <$> documents st' !! r = written_step r e (content <$> documents st !! r).
Proof.
  intros Hd. destruct e as [s0|s0 roomId|s0 roomId cnt|s0 roomId cur|s0|s0 lst];
    simpl in Hd; destruct (sockets st !! s0) as [k0|] eqn:Hk0; try done;
    inversion Hd as [[Hst]]; clear Hd;
    try (apply (f_equal fst) in Hst; simpl in Hst); subst st'; try done.
  - destruct roomId as [r'|]; [ | done ]. unfold written_step.
    destruct (decide (r' = "")) as [-> | Hr'].
    { case_bool_decide; [ | done ]. subst r. by rewrite bool_decide_eq_true_2. }
    rewrite on_join_room_documents by done.
    case_bool_decide as Heq.
    + subst r'. rewrite bool_decide_eq_false_2 by done.
      destruct (documents st !! r) as [d|] eqn:Hdoc.
      * by rewrite Hdoc.
      * by rewrite lookup_insert_eq.
    + destruct (documents st !! r'); [ done | ]. by rewrite lookup_insert_ne.
  - destruct roomId as [r'|]; [ | done ].
    destruct cnt as [[ | | | c | | ]|]; try done. unfold written_step.
    destruct (decide (r' = "")) as [-> | Hr'].
    { case_bool_decide; [ | done ]. subst r. by rewrite bool_decide_eq_true_2. }
    rewrite on_code_change_accepted by done. cbn [fst documents].
    case_bool_decide as Heq.
    + subst r'. rewrite bool_decide_eq_false_2 by done.
      by rewrite lookup_insert_eq.
    + by rewrite lookup_insert_ne.
  - unfold on_cursor_update. destruct roomId as [r'|]; [ | done ].
    by destruct (falsy (Some r')).
Qed.

Lemma run_written tr : ∀ st st' out r,
  run st tr = Some (st', out) →
  content <$> documents st' !! r = written r tr (content <$> documents st !! r).
Proof.
  induction tr as [ | [now e] tr IH ]; intros st st' out r Hrun.
  - simpl in Hrun. by simplify_eq.
  - simpl in Hrun.
    destruct (dispatch st now e) as [[s1 o1]|] eqn:Hd; [ | done ].
    destruct (run s1 tr) as [[s2 o2]|] eqn:Hrun1; [ | done ]. simplify_eq.
    simpl. rewrite <- (dispatch_written _ _ _ _ _ r Hd). by eapply IH.
Qed.

(** X4: the last write wins.  After any trace from the start the content
    of a room is the content of the last accepted [code_change] that
    names it, whoever sent it; the empty text if the room was joined and
    never changed; and the room has no entry if neither happened. *)
Theorem last_write_wins
    (tr : list (Z * Event)) (st : Server) (out : list Emission) (r : string) :
  run start tr = Some (st, out) →
  content <$> documents st !! r = written r tr None.
Proof.
  intros Hrun. rewrite (run_written _ _ _ _ r Hrun). simpl.
  by rewrite lookup_empty.
Qed.

Lemma last_write_wins_witness :
  ∃ st out,
    run start demo_trace = Some (st, out)
    ∧ content <$> documents st !! "demo" = written "demo" demo_trace None.
Proof.
  eexists _, _. split; [ reflexivity | ].
  apply (last_write_wins demo_trace _ _ "demo" eq_refl).
Defined.

(** X5: a room entry is never removed.  Whatever events follow -- joins,
    cursor updates, the disconnection of every socket -- a room that has
    a snapshot keeps one, and keeps the very same one unless an accepted
    [code_change] names the room. *)
Theorem room_never_removed
    (tr : list (Z * Event)) (st st' : Server) (out : list Emission)
    (r : string) (d : DocumentState) :
  run st tr = Some (st', out) →
  documents st !! r = Some d →
  (∃ d', documents st' !! r = Some d')
  ∧ (Forall (λ ne, ¬ accepted_change r ne.2) tr → documents st' !! r = Some d).
Proof.
  intros Hrun Hd. split.
  - assert (Hdom : r ∈ dom (documents st')).
    { apply (run_dom _ _ _ _ r Hrun). left. apply elem_of_dom. eauto. }
    by apply elem_of_dom in Hdom.
  - intros Hall. by eapply run_keeps_snapshot.
Qed.

Lemma room_never_removed_witness :
  let st := (on_join_room "a" (Some "demo") 1 (on_connection "a" start)).1 in
  ∃ st' out,
    run st [(2, EvDisconnect "a")] = Some (st', out)
    ∧ documents st !! "demo" = Some {| content := ""; updatedAt := 1 |}
    ∧ (∃ d', documents st' !! "demo" = Some d')
    ∧ (Forall (λ ne, ¬ accepted_change "demo" ne.2) [(2, EvDisconnect "a")] →
       documents st' !! "demo" = Some {| content := ""; updatedAt := 1 |}).
Proof.
  assert (Hd : documents (on_join_room "a" (Some "demo") 1 (on_connection "a" start)).1
                 !! "demo" = Some {| content := ""; updatedAt := 1 |}).
  { vm_compute. reflexivity. }
  eexists _, _. split; [ reflexivity | ]. split; [ exact Hd | ].
  apply (room_never_removed [(2, EvDisconnect "a")]
           (on_join_room "a" (Some "demo") 1 (on_connection "a" start)).1
           _ _ "demo" _ eq_refl Hd).
Defined.

(** ** Membership along a trace *)

Lemma dispatch_membership st now e st' out x k :
  dispatch st now e = Some (st', out) →
  sockets st !! x = Some k →
  e ≠ EvDisconnect x →
  ∃ k', sockets st' !! x = Some k' ∧ rooms k ⊆ rooms k'.
Proof.
  intros Hd Hk Hne. destruct e as [s0|s0 roomId|s0 roomId cnt|s0 roomId cur|s0|s0 lst];
    simpl in Hd; destruct (sockets st !! s0) as [k0|] eqn:Hk0; try done;
    inversion Hd as [[Hst]]; clear Hd;
    try (apply (f_equal fst) in Hst; simpl in Hst); subst st'.
  - exists k. split; [ | done ]. simpl. rewrite lookup_insert_ne; [ done | congruence ].
  - destruct roomId as [r'|]; [ | by exists k ].
    destruct (decide (r' = "")) as [-> | Hr']; [ by exists k | ].
    rewrite on_join_room_sockets by done.
    destruct (decide (s0 = x)) as [-> | Hsx].
    + rewrite lookup_alter_eq, Hk. simpl. eexists. split; [ done | ]. simpl.
      apply union_subseteq_r.
    + rewrite lookup_alter_ne by done. by exists k.
  - exists k. split; [ | done ]. rewrite <- Hk.
    unfold on_code_change. destruct roomId as [r'|]; [ | done ].
    destruct cnt as [[ | | | c | | ]|]; try done. by destruct (falsy (Some r')).
  - exists k. split; [ | done ]. rewrite <- Hk.
    unfold on_cursor_update. destruct roomId as [r'|]; [ | done ].
    by destruct (falsy (Some r')).
  - exists k. split; [ | done ]. simpl. rewrite lookup_delete_ne; [ done | congruence ].
Qed.

(** X6: the server never takes a connected socket out of a room.  Along
    any trace in which a socket does not disconnect, the socket stays
    connected and stays in every room it is in; no join, by itself or by
    others, makes it leave one. *)
Theorem membership_kept_until_disconnect
    (tr : list (Z * Event)) (st st' : Server) (out : list Emission)
    (x : string) (k : Socket) :
  run st tr = Some (st', out) →
  sockets st !! x = Some k →
  (∀ t, (t, EvDisconnect x) ∉ tr) →
  ∃ k', sockets st' !! x = Some k'
        ∧ rooms k ⊆ rooms k'
        ∧ ∀ r, x ∈ in_room r st → x ∈ in_room r st'.
Proof.
  revert st st' out k.
  induction tr as [ | [now e] tr IH ]; intros st st' out k Hrun Hk Hnd.
  - simpl in Hrun. simplify_eq. exists k. split; [ done | ]. split; [ done | auto ].
  - simpl in Hrun.
    destruct (dispatch st now e) as [[s1 o1]|] eqn:Hd; [ | done ].
    destruct (run s1 tr) as [[s2 o2]|] eqn:Hrun1; [ | done ]. simplify_eq.
    assert (Hne : e ≠ EvDisconnect x).
    { intros ->. apply (Hnd now). apply list_elem_of_here. }
    destruct (dispatch_membership _ _ _ _ _ _ _ Hd Hk Hne) as (k1 & Hk1 & Hsub1).
    destruct (IH _ _ _ _ Hrun1 Hk1) as (k2 & Hk2 & Hsub2 & _).
    { intros t Hin. apply (Hnd t). by apply list_elem_of_further. }
    exists k2. split; [ done | ]. split; [ set_solver | ].
    intros r (k0 & Hk0 & Hr)%elem_of_in_room. simplify_eq.
    apply elem_of_in_room. exists k2. split; [ done | ]. set_solver.
Qed.

Lemma membership_kept_until_disconnect_witness :
  let st := (on_join_room "a" (Some "r1") 1 (on_connection "a" start)).1 in
  let k := {| activeRoom := Some "r1"; rooms := {["a"; "r1"]} |} in
  ∃ st' out,
    run st [(2, EvJoinRoom "a" (Some "r2"))] = Some (st', out)
    ∧ sockets st !! "a" = Some k
    ∧ (∀ t, (t, EvDisconnect "a") ∉ [(2, EvJoinRoom "a" (Some "r2"))])
    ∧ ∃ k', sockets st' !! "a" = Some k'
            ∧ rooms k ⊆ rooms k'
            ∧ ∀ r, "a" ∈ in_room r st → "a" ∈ in_room r st'.
Proof.
  assert (Hk : sockets (on_join_room "a" (Some "r1") 1 (on_connection "a" start)).1 !! "a"
               = Some {| activeRoom := Some "r1"; rooms := {["a"; "r1"]} |}).
  { vm_compute. reflexivity. }
  assert (Hnd : ∀ t : Z, (t, EvDisconnect "a") ∉ [(2, EvJoinRoom "a" (Some "r2"))]).
  { intros t Hin. apply elem_of_cons in Hin as [Hin | Hin]; [ discriminate | ].
    by apply elem_of_nil in Hin. }
  eexists _, _. split; [ reflexivity | ]. split; [ exact Hk | ]. split; [ exact Hnd | ].
  apply (membership_kept_until_disconnect [(2, EvJoinRoom "a" (Some "r2"))]
           (on_join_room "a" (Some "r1") 1 (on_connection "a" start)).1
           _ _ "a" _ eq_refl Hk Hnd).
Defined.

(** ** Who is sent what *)

Lemma in_room_connected (x r : string) (st : Server) :
  x ∈ in_room r st → is_Some (sockets st !! x).
Proof. intros (k & Hk & _)%elem_of_in_room. eauto. Qed.

(** X7: whatever the event, the server emits only to sockets that are
    connected when it arrives, and the only message a socket is ever
    sent in answer to its own event is the snapshot of the room it
    joins: no [code_change], [cursor_update], [peer_joined] or
    [peer_left] comes back to its sender. *)
Theorem emissions_reach_connected_others
    (st st' : Server) (now : Z) (e : Event) (out : list Emission)
    (x : string) (m : Message) :
  dispatch st now e = Some (st', out) →
  (x, m) ∈ out →
  is_Some (sockets st !! x)
  ∧ (x = sender e →
     ∃ r, e = EvJoinRoom x (Some r) ∧ m = initial_state (documents st' !! r)).
Proof.
  intros Hd Hin. destruct e as [s0|s0 roomId|s0 roomId cnt|s0 roomId cur|s0|s0 lst];
    simpl in Hd; destruct (sockets st !! s0) as [k0|] eqn:Hk0; try done;
    inversion Hd as [[Hst Hout]]; clear Hd.
  - subst out. by apply elem_of_nil in Hin.
  - unfold on_join_room in Hst. destruct roomId as [r|].
    2:{ simplify_eq. by apply elem_of_nil in Hin. }
    destruct (falsy (Some r)).
    { simplify_eq. by apply elem_of_nil in Hin. }
    inversion Hst as [[Hst' Hout]]. clear Hst. subst out.
    apply elem_of_cons in Hin as [Heq | Hin].
    + inversion Heq; subst x m. split; [ eauto | ]. intros _. exists r.
      split; [ done | ]. by subst st'.
    + apply elem_of_emit in Hin as [[Hne Hin]%elem_of_socket_to ->]. split.
      * apply in_room_alter_ne in Hin; [ | done ]. by eapply in_room_connected.
      * simpl. congruence.
  - unfold on_code_change in Hst. destruct roomId as [r|].
    2:{ simplify_eq. by apply elem_of_nil in Hin. }
    destruct cnt as [[ | | | c | | ]|];
      try (simplify_eq; by apply elem_of_nil in Hin).
    destruct (falsy (Some r)).
    { simplify_eq. by apply elem_of_nil in Hin. }
    inversion Hst as [[Hst' Hout]]. clear Hst. subst out.
    apply elem_of_emit in Hin as [[Hne Hin]%elem_of_socket_to ->].
    split; [ by eapply in_room_connected | simpl; congruence ].
  - unfold on_cursor_update in Hst. destruct roomId as [r|].
    2:{ simplify_eq. by apply elem_of_nil in Hin. }
    destruct (falsy (Some r)).
    { simplify_eq. by apply elem_of_nil in Hin. }
    inversion Hst as [[Hst' Hout]]. clear Hst. subst out.
    apply elem_of_emit in Hin as [[Hne Hin]%elem_of_socket_to ->].
    split; [ by eapply in_room_connected | simpl; congruence ].
  - rewrite Hk0 in Hout. subst out.
    destruct (activeRoom k0) as [r|]; [ | by apply elem_of_nil in Hin ].
    destruct (falsy (Some r)); [ by apply elem_of_nil in Hin | ].
    apply elem_of_emit in Hin as [[Hne Hin]%elem_of_socket_to ->].
    split; [ by eapply in_room_connected | simpl; congruence ].
Qed.

Lemma emissions_reach_connected_others_witness :
  let st := (on_join_room "b" (Some "demo") 2
               (on_connection "b" (on_connection "a" start))).1 in
  ∃ st',
    dispatch st 3 (EvJoinRoom "a" (Some "demo"))
      = Some (st', [ ("a", initial_state (Some {| content := ""; updatedAt := 2 |}));
                     ("b", peer_joined "a") ])
    ∧ ("b", peer_joined "a")
        ∈ [ ("a", initial_state (Some {| content := ""; updatedAt := 2 |}));
            ("b", peer_joined "a") ]
    ∧ is_Some (sockets st !! "b")
    ∧ ("b" = sender (EvJoinRoom "a" (Some "demo")) →
       ∃ r, EvJoinRoom "a" (Some "demo") = EvJoinRoom "b" (Some r)
            ∧ peer_joined "a" = initial_state (documents st' !! r)).
Proof.
  assert (Hin : ("b", peer_joined "a")
        ∈ [ ("a", initial_state (Some {| content := ""; updatedAt := 2 |}));
            ("b", peer_joined "a") ]).
  { apply list_elem_of_further, list_elem_of_here. }
  eexists. split; [ vm_compute; reflexivity | ]. split; [ exact Hin | ].
  eapply (emissions_reach_connected_others _ _ 3 (EvJoinRoom "a" (Some "demo")) _
            "b" (peer_joined "a")); [ vm_compute; reflexivity | exact Hin ].
Defined.

(** ** Who is in a room *)

Lemma run_app tr1 : ∀ tr2 st st' out,
  run st (tr1 ++ tr2) = Some (st', out) →
  ∃ st1 o1 o2, run st tr1 = Some (st1, o1) ∧ run st1 tr2 = Some (st', o2).
Proof.
  induction tr1 as [ | [now e] tr1 IH ]; intros tr2 st st' out Hrun.
  - exists st, [], out. done.
  - simpl in Hrun.
    destruct (dispatch st now e) as [[s1 o1]|] eqn:Hd; [ | done ].
    destruct (run s1 (tr1 ++ tr2)) as [[s2 o2]|] eqn:Hrun1; [ | done ]. simplify_eq.
    destruct (IH _ _ _ _ Hrun1) as (st1 & o3 & o4 & H1 & H2).
    exists st1, (o1 ++ o3), o4. simpl. by rewrite Hd, H1.
Qed.

Lemma run_cons now e tr st st' out :
  run st ((now, e) :: tr) = Some (st', out) →
  ∃ s1 o1 o2, dispatch st now e = Some (s1, o1) ∧ run s1 tr = Some (st', o2).
Proof.
  simpl. destruct (dispatch st now e) as [[s1 o1]|]; [ | done ].
  destruct (run s1 tr) as [[s2 o2]|] eqn:Hrun; [ | done ]. intros Heq.
  inversion Heq; subst. exists s1, o1, o2. done.
Qed.

Lemma run_membership tr : ∀ st st' out x k,
  run st tr = Some (st', out) →
  sockets st !! x = Some k →
  (∀ t, (t, EvDisconnect x) ∉ tr) →
  ∃ k', sockets st' !! x = Some k' ∧ rooms k ⊆ rooms k'.
Proof.
  induction tr as [ | [now e] tr IH ]; intros st st' out x k Hrun Hk Hnd.
  - simpl in Hrun. simplify_eq. by exists k.
  - simpl in Hrun.
    destruct (dispatch st now e) as [[s1 o1]|] eqn:Hd; [ | done ].
    destruct (run s1 tr) as [[s2 o2]|] eqn:Hrun1; [ | done ]. simplify_eq.
    assert (Hne : e ≠ EvDisconnect x).
    { intros ->. apply (Hnd now). apply list_elem_of_here. }
    destruct (dispatch_membership _ _ _ _ _ _ _ Hd Hk Hne) as (k1 & Hk1 & Hsub1).
    destruct (IH _ _ _ _ _ Hrun1 Hk1) as (k2 & Hk2 & Hsub2).
    { intros t Hin. apply (Hnd t). by apply list_elem_of_further. }
    exists k2. split; [ done | ]. by etrans.
Qed.

Lemma dispatch_disconnect_gone st now x st' out :
  dispatch st now (EvDisconnect x) = Some (st', out) → sockets st' !! x = None.
Proof.
  simpl. destruct (sockets st !! x); [ | done ]. intros Hd.
  inversion Hd as [[Hst Hout]]. simpl. apply lookup_delete_eq.
Qed.

(** A room a socket is in at the end of a trace is the room of its id,
    a room it joined in the trace without disconnecting since, or a room
    it was in before the trace, when it did not disconnect in it. *)
Lemma run_rooms_since tr : ∀ st st' out x k' r,
  run st tr = Some (st', out) →
  sockets st' !! x = Some k' → r ∈ rooms k' →
  r = x
  ∨ joined_since x r tr
  ∨ ((∃ k, sockets st !! x = Some k ∧ r ∈ rooms k) ∧ ∀ t, (t, EvDisconnect x) ∉ tr).
Proof.
  induction tr as [ | [now e] tr IH ]; intros st st' out x k' r Hrun Hk' Hr.
  - simpl in Hrun. simplify_eq. right. right. split; [ eauto | ].
    intros t Hin. by apply elem_of_nil in Hin.
  - simpl in Hrun.
    destruct (dispatch st now e) as [[s1 o1]|] eqn:Hd; [ | done ].
    destruct (run s1 tr) as [[s2 o2]|] eqn:Hrun1; [ | done ]. simplify_eq.
    destruct (IH _ _ _ _ _ _ Hrun1 Hk' Hr)
      as [-> | [(tr1 & t & tr2 & -> & Hnd) | [(k1 & Hk1 & Hr1) Hnd]]].
    + by left.
    + right. left. exists ((now, e) :: tr1), t, tr2. done.
    + destruct (dispatch_rooms _ _ _ _ _ _ _ _ Hd Hk1 Hr1) as [Hold | [-> | ->]].
      * right. right. split; [ done | ]. intros t Hin.
        apply elem_of_cons in Hin as [Heq | Hin]; [ | by apply (Hnd t) ].
        simplify_eq. apply dispatch_disconnect_gone in Hd. congruence.
      * right. left. exists [], now, tr. done.
      * by left.
Qed.

(** Every connected socket is in the room of its id. *)
Definition own_room (st : Server) : Prop :=
  ∀ x k, sockets st !! x = Some k → x ∈ rooms k.

Lemma on_code_change_sockets sid roomId cnt now st :
  sockets (on_code_change sid roomId cnt now st).1 = sockets st.
Proof.
  unfold on_code_change. destruct roomId as [r|]; [ | done ].
  destruct cnt as [[ | | | c | | ]|]; try done. by destruct (falsy (Some r)).
Qed.

Lemma on_cursor_update_state sid roomId cur st :
  (on_cursor_update sid roomId cur st).1 = st.
Proof.
  unfold on_cursor_update. destruct roomId as [r|]; [ | done ].
  by destruct (falsy (Some r)).
Qed.

Lemma dispatch_own_room st now e st' out :
  dispatch st now e = Some (st', out) → own_room st → own_room st'.
Proof.
  intros Hd Hinv x k' Hk'.
  destruct (sockets st !! x) as [k|] eqn:Hk.
  - assert (Hne : e ≠ EvDisconnect x).
    { intros ->. apply dispatch_disconnect_gone in Hd. congruence. }
    destruct (dispatch_membership _ _ _ _ _ _ _ Hd Hk Hne) as (k1 & Hk1 & Hsub).
    simplify_eq. apply Hsub. by eapply Hinv.
  - destruct e as [s0|s0 roomId|s0 roomId cnt|s0 roomId cur|s0|s0 lst];
      simpl in Hd; destruct (sockets st !! s0) as [k0|] eqn:Hk0; try done;
      inversion Hd as [[Hst]]; clear Hd;
      try (apply (f_equal fst) in Hst; simpl in Hst); subst st'.
    + simpl in Hk'. destruct (decide (s0 = x)) as [-> | Hne].
      * rewrite lookup_insert_eq in Hk'. simplify_eq. simpl.
        by apply elem_of_singleton.
      * rewrite lookup_insert_ne in Hk' by done. congruence.
    + exfalso. destruct roomId as [r'|]; [ | simpl in Hk'; congruence ].
      destruct (decide (r' = "")) as [-> | Hr']; [ simpl in Hk'; congruence | ].
      rewrite on_join_room_sockets in Hk' by done.
      assert (Hnone : alter (λ k, {| activeRoom := Some r'; rooms := {[r']} ∪ rooms k |})
                        s0 (sockets st) !! x = None) by (by apply lookup_alter_None).
      congruence.
    + exfalso. rewrite on_code_change_sockets in Hk'. congruence.
    + exfalso. rewrite on_cursor_update_state in Hk'. congruence.
    + exfalso. simpl in Hk'. apply lookup_delete_Some in Hk' as [_ Hk']. congruence.
Qed.

Lemma run_own_room tr : ∀ st st' out,
  run st tr = Some (st', out) → own_room st → own_room st'.
Proof.
  induction tr as [ | [now e] tr IH ]; intros st st' out Hrun Hinv.
  - simpl in Hrun. by simplify_eq.
  - simpl in Hrun.
    destruct (dispatch st now e) as [[s1 o1]|] eqn:Hd; [ | done ].
    destruct (run s1 tr) as [[s2 o2]|] eqn:Hrun1; [ | done ]. simplify_eq.
    eapply IH; [ done | ]. by eapply dispatch_own_room.
Qed.

(** The sockets in room [r] after a trace from the start, told by the
    events: the connected sockets that joined [r] and did not disconnect
    since, and the connected socket whose id is [r]. *)
Lemma in_room_iff_joined tr st out x r :
  run start tr = Some (st, out) →
  r ≠ "" →
  x ∈ in_room r st ↔ is_Some (sockets st !! x) ∧ (x = r ∨ joined_since x r tr).
Proof.
  intros Hrun Hr. rewrite elem_of_in_room. split.
  - intros (k & Hk & Hin). split; [ eauto | ].
    destruct (run_rooms_since _ _ _ _ _ _ _ Hrun Hk Hin)
      as [-> | [Hj | [(k0 & Hk0 & _) _]]]; [ by left | by right | ].
    simpl in Hk0. by rewrite lookup_empty in Hk0.
  - intros [[k Hk] [-> | (tr1 & t & tr2 & -> & Hnd)]].
    + exists k. split; [ done | ].
      apply (run_own_room _ _ _ _ Hrun); [ | done ].
      intros y ky Hy. simpl in Hy. by rewrite lookup_empty in Hy.
    + destruct (run_app _ _ _ _ _ Hrun) as (s1 & o1 & o2 & Hrun1 & Hrun2).
      destruct (run_cons _ _ _ _ _ _ Hrun2) as (s2 & o3 & o4 & Hd & Hrun3).
      cbn [dispatch] in Hd. destruct (sockets s1 !! x) as [k1|] eqn:Hk1; [ | done ].
      assert (Hs2 : s2 = (on_join_room x (Some r) t s1).1).
      { injection Hd as Hd.
        change (on_join_room x (Some r) t s1 = (s2, o3)) in Hd. by rewrite Hd. }
      assert (Hk2 : sockets s2 !! x
                    = Some {| activeRoom := Some r; rooms := {[r]} ∪ rooms k1 |}).
      { by rewrite Hs2, on_join_room_sockets, lookup_alter_eq, Hk1. }
      destruct (run_membership _ _ _ _ _ _ Hrun3 Hk2 Hnd) as (k' & Hk' & Hsub).
      exists k'. split; [ done | ]. apply Hsub. simpl.
      apply elem_of_union_l. by apply elem_of_singleton.
Qed.

(** ** Who is sent a code change *)

(** Against C3 as worded: a socket whose recorded room is not the room
    of the change is sent the change all the same.  After [a] joined
    [r1] and then [r2], its recorded room is [r2], and what [b] writes
    to [r1] is still sent to [a]; and with [a] and [b] connected and in
    no room they joined, what [b] writes to the room named by the id of
    [a] is sent to [a], whose recorded room is none. *)
Lemma code_change_reaches_socket_bound_elsewhere :
  (activeRoom <$> sockets rejoin_state !! "a" = Some (Some "r2")
   ∧ snd <$> dispatch rejoin_state 5
               (EvCodeChange "b" (Some "r1") (Some (JSON.Str "y=2")))
       = Some [("a", code_change "y=2")])
  ∧ (activeRoom <$> sockets idle_state !! "a" = Some None
     ∧ snd <$> dispatch idle_state 2
                 (EvCodeChange "b" (Some "a") (Some (JSON.Str "y=2")))
         = Some [("a", code_change "y=2")]).
Proof. repeat split; vm_compute; reflexivity. Qed.

(** C3, amended: after any trace from the start, a [code_change] with a
    non-empty room id [r] and a string content [c] is emitted once, with
    content exactly [c], to each connected socket other than the sender
    that joined [r] and did not disconnect since, or whose id is [r] --
    whatever room it has recorded -- and to nobody else, never to the
    sender.  Every other socket whose recorded room is [r] is among
    them.  And as long as no later mutation of [r] is accepted, every
    connected socket that joins [r] is sent the snapshot with content
    [c], and it alone is sent it. *)
Theorem code_change_delivered
    (tr0 : list (Z * Event)) (out0 : list Emission)
    (sid r c : string) (now : Z) (st : Server) :
  run start tr0 = Some (st, out0) →
  is_Some (sockets st !! sid) →
  r ≠ "" →
  ∃ st1 out,
    dispatch st now (EvCodeChange sid (Some r) (Some (JSON.Str c))) = Some (st1, out)
    ∧ NoDup out
    ∧ (∀ x m, (x, m) ∈ out ↔
         m = code_change c ∧ x ≠ sid
         ∧ is_Some (sockets st !! x) ∧ (x = r ∨ joined_since x r tr0))
    ∧ (∀ x k,
         sockets st !! x = Some k → activeRoom k = Some r → x ≠ sid →
         (x, code_change c) ∈ out)
    ∧ (∀ m, (sid, m) ∉ out)
    ∧ (∀ tr st2 out2 j now',
         run st1 tr = Some (st2, out2) →
         Forall (λ ne, ¬ accepted_change r ne.2) tr →
         is_Some (sockets st2 !! j) →
         ∃ st3 out3,
           dispatch st2 now' (EvJoinRoom j (Some r)) = Some (st3, out3)
           ∧ (j, initial_state (Some {| content := c; updatedAt := now |})) ∈ out3
           ∧ (∀ x d, (x, initial_state d) ∈ out3 →
                x = j ∧ d = Some {| content := c; updatedAt := now |})).
Proof.
  intros Hrun [ks Hks] Hr. unfold dispatch at 1. rewrite Hks.
  rewrite on_code_change_accepted by done.
  eexists _, _. split; [ reflexivity | ]. split; [ apply NoDup_emit | ].
  split.
  { intros x m. rewrite elem_of_emit, elem_of_socket_to.
    rewrite (in_room_iff_joined _ _ _ x r Hrun Hr). tauto. }
  split.
  { intros x k Hk Hact Hx.
    apply elem_of_emit. split; [ | done ]. apply elem_of_socket_to. split; [ done | ].
    apply elem_of_in_room. exists k. split; [ done | ].
    by apply (run_active_room _ _ _ _ Hrun start_active_room x k r). }
  split.
  { intros m. rewrite elem_of_emit, elem_of_socket_to. tauto. }
  intros tr st2 out2 j now' Hrun2 Hall [k Hk].
  assert (Hdoc : documents st2 !! r = Some {| content := c; updatedAt := now |}).
  { eapply run_keeps_snapshot; [ done | done | ]. simpl. apply lookup_insert_eq. }
  unfold dispatch. rewrite Hk. unfold on_join_room. rewrite (falsy_nonempty r Hr), Hdoc.
  eexists _, _. split; [ reflexivity | ]. split.
  - rewrite Hdoc. apply list_elem_of_here.
  - intros x d Hin. rewrite Hdoc in Hin.
    apply elem_of_cons in Hin as [Heq | Hin]; [ by simplify_eq | ].
    apply elem_of_emit in Hin as [_ Hne]. discriminate.
Qed.

Lemma code_change_delivered_witness :
  ∃ out0,
    run start rejoin_trace = Some (rejoin_state, out0)
    ∧ is_Some (sockets rejoin_state !! "b")
    ∧ "r1" ≠ ""
    ∧ dispatch rejoin_state 5 (EvCodeChange "b" (Some "r1") (Some (JSON.Str "x=1")))
        = Some ({| documents := <["r1" := {| content := "x=1"; updatedAt := 5 |}]>
                                  (documents rejoin_state);
                   sockets := sockets rejoin_state |},
                [("a", code_change "x=1")])
    ∧ ∃ st1 out,
        dispatch rejoin_state 5 (EvCodeChange "b" (Some "r1") (Some (JSON.Str "x=1")))
          = Some (st1, out)
        ∧ NoDup out
        ∧ (∀ x m, (x, m) ∈ out ↔
             m = code_change "x=1" ∧ x ≠ "b"
             ∧ is_Some (sockets rejoin_state !! x)
             ∧ (x = "r1" ∨ joined_since x "r1" rejoin_trace))
        ∧ (∀ x k,
             sockets rejoin_state !! x = Some k → activeRoom k = Some "r1" → x ≠ "b" →
             (x, code_change "x=1") ∈ out)
        ∧ (∀ m, ("b", m) ∉ out)
        ∧ (∀ tr st2 out2 j now',
             run st1 tr = Some (st2, out2) →
             Forall (λ ne, ¬ accepted_change "r1" ne.2) tr →
             is_Some (sockets st2 !! j) →
             ∃ st3 out3,
               dispatch st2 now' (EvJoinRoom j (Some "r1")) = Some (st3, out3)
               ∧ (j, initial_state (Some {| content := "x=1"; updatedAt := 5 |})) ∈ out3
               ∧ (∀ x d, (x, initial_state d) ∈ out3 →
                    x = j ∧ d = Some {| content := "x=1"; updatedAt := 5 |})).
Proof.
  assert (Hrun : run start rejoin_trace
                 = Some (rejoin_state,
                         match run start rejoin_trace with
                         | Some (_, o) => o
                         | None => []
                         end)).
  { vm_compute. reflexivity. }
  assert (Hconn : is_Some (sockets rejoin_state !! "b")).
  { eexists. vm_compute. reflexivity. }
  eexists. split; [ exact Hrun | ]. split; [ exact Hconn | ].
  split; [ discriminate | ]. split; [ vm_compute; reflexivity | ].
  apply (code_change_delivered rejoin_trace _ "b" "r1" "x=1" 5 rejoin_state Hrun Hconn).
  discriminate.
Defined.

(** ** Who is sent a cursor update *)

(** Against C7 as worded: a socket that is no member of the room the
    cursor is sent to, by the room it has recorded, is sent the cursor
    all the same.  With [a] and [b] connected and neither having joined
    a room, a [cursor_update] that [b] addresses to the room named by
    the id of [a] is sent to [a]; and after [a] joined [r1] and then
    [r2], a [cursor_update] that [b] addresses to [r1] is sent to [a],
    whose recorded room is [r2]. *)
Lemma cursor_update_reaches_socket_by_id :
  (activeRoom <$> sockets idle_state !! "a" = Some None
   ∧ dispatch idle_state 2 (EvCursorUpdate "b" (Some "a") None)
       = Some (idle_state, [("a", cursor_update "b" None)]))
  ∧ (activeRoom <$> sockets rejoin_state !! "a" = Some (Some "r2")
     ∧ dispatch rejoin_state 5 (EvCursorUpdate "b" (Some "r1") None)
         = Some (rejoin_state, [("a", cursor_update "b" None)])).
Proof. repeat split; vm_compute; reflexivity. Qed.

(** C7, amended: after any trace from the start, a [cursor_update] with
    a non-empty room id [r] leaves the server as it is and is emitted
    once, with the sender's id and the cursor as sent, to each connected
    socket other than the sender that joined [r] and did not disconnect
    since, or whose id is [r] -- whatever room it has recorded -- and to
    nobody else: never back to the sender. *)
Theorem cursor_update_not_echoed
    (tr0 : list (Z * Event)) (out0 : list Emission)
    (sid r : string) (cursor : option JSON.value) (now : Z) (st : Server) :
  run start tr0 = Some (st, out0) →
  is_Some (sockets st !! sid) →
  r ≠ "" →
  ∃ out,
    dispatch st now (EvCursorUpdate sid (Some r) cursor) = Some (st, out)
    ∧ NoDup out
    ∧ (∀ x m, (x, m) ∈ out ↔
         m = cursor_update sid cursor ∧ x ≠ sid
         ∧ is_Some (sockets st !! x) ∧ (x = r ∨ joined_since x r tr0))
    ∧ (∀ x k,
         sockets st !! x = Some k → activeRoom k = Some r → x ≠ sid →
         (x, cursor_update sid cursor) ∈ out)
    ∧ (∀ m, (sid, m) ∉ out).
Proof.
  intros Hrun [ks Hks] Hr. unfold dispatch. rewrite Hks.
  unfold on_cursor_update. rewrite (falsy_nonempty r Hr).
  eexists. split; [ reflexivity | ]. split; [ apply NoDup_emit | ].
  split; [ | split ].
  - intros x m. rewrite elem_of_emit, elem_of_socket_to.
    rewrite (in_room_iff_joined _ _ _ x r Hrun Hr). tauto.
  - intros x k Hk Hact Hx.
    apply elem_of_emit. split; [ | done ]. apply elem_of_socket_to. split; [ done | ].
    apply elem_of_in_room. exists k. split; [ done | ].
    by apply (run_active_room _ _ _ _ Hrun start_active_room x k r).
  - intros m. rewrite elem_of_emit, elem_of_socket_to. tauto.
Qed.

Lemma cursor_update_not_echoed_witness :
  ∃ out0,
    run start pair_trace = Some (pair_state, out0)
    ∧ is_Some (sockets pair_state !! "a")
    ∧ "demo" ≠ ""
    ∧ dispatch pair_state 4 (EvCursorUpdate "a" (Some "demo") None)
        = Some (pair_state, [("b", cursor_update "a" None)])
    ∧ ∃ out,
        dispatch pair_state 4 (EvCursorUpdate "a" (Some "demo") None)
          = Some (pair_state, out)
        ∧ NoDup out
        ∧ (∀ x m, (x, m) ∈ out ↔
             m = cursor_update "a" None ∧ x ≠ "a"
             ∧ is_Some (sockets pair_state !! x)
             ∧ (x = "demo" ∨ joined_since x "demo" pair_trace))
        ∧ (∀ x k,
             sockets pair_state !! x = Some k → activeRoom k = Some "demo" → x ≠ "a" →
             (x, cursor_update "a" None) ∈ out)
        ∧ (∀ m, ("a", m) ∉ out).
Proof.
  assert (Hrun : run start pair_trace
                 = Some (pair_state,
                         match run start pair_trace with
                         | Some (_, o) => o
                         | None => []
                         end)).
  { vm_compute. reflexivity. }
  assert (Hconn : is_Some (sockets pair_state !! "a")).
  { eexists. vm_compute. reflexivity. }
  eexists. split; [ exact Hrun | ]. split; [ exact Hconn | ].
  split; [ discriminate | ]. split; [ vm_compute; reflexivity | ].
  apply (cursor_update_not_echoed pair_trace _ "a" "demo" None 4 pair_state Hrun Hconn).
  discriminate.
Defined.

(** * Further properties of the completion endpoint *)

Import Prompt.

Lemma length_substring (s : string) : ∀ n m : nat,
  String.length (substring n m s) = Nat.min m (String.length s - n).
Proof.
  induction s as [ | c s IH ]; intros n m.
  - destruct n; destruct m; reflexivity.
  - destruct n as [ | n ].
    + destruct m as [ | m ]; [ reflexivity | ]. simpl. rewrite IH. f_equal. f_equal. lia.
    + simpl. apply IH.
Qed.

Lemma slice_clamp (s : string) (from to : Z) :
  slice s from to =
    let len := Z.of_nat (String.length s) in
    substring (Z.to_nat (clamp len from))
      (Z.to_nat (Z.max (clamp len to - clamp len from) 0)) s.
Proof. reflexivity. Qed.

Lemma length_slice (s : string) (from to : Z) :
  let len := Z.of_nat (String.length s) in
  Z.of_nat (String.length (slice s from to))
    = Z.max (clamp len to - clamp len from) 0.
Proof.
  rewrite slice_clamp. cbv zeta. rewrite length_substring.
  set (len := Z.of_nat (String.length s)).
  assert (Ha : 0 ≤ clamp len from ≤ len).
  { unfold clamp. destruct (from <? 0) eqn:E; lia. }
  assert (Hb : 0 ≤ clamp len to ≤ len).
  { unfold clamp. destruct (to <? 0) eqn:E; lia. }
  lia.
Qed.

Lemma userPrompt_lines code language cursor instructions :
  userPrompt code language cursor instructions
    = join newline (filter_Boolean (prompt_lines code language cursor instructions)).
Proof. reflexivity. Qed.

(** X8: for a cursor that is not negative the prompt carries at most
    2000 characters of the code on each side of the cursor; and for a
    cursor inside the text these are exactly the characters that end at
    the cursor and the characters that start at it. *)
Theorem prompt_window_bounded
    (code language : string) (cursor : Z) (instructions : option string) :
  0 ≤ cursor →
  let len := Z.of_nat (String.length code) in
  userPrompt code language cursor instructions
    = join newline (filter_Boolean (prompt_lines code language cursor instructions))
  ∧ Z.of_nat (String.length (window_before code cursor)) ≤ 2000
  ∧ Z.of_nat (String.length (window_after code cursor)) ≤ 2000
  ∧ (cursor ≤ len →
     window_before code cursor
       = substring (Z.to_nat (cursor - Z.min cursor 2000))
           (Z.to_nat (Z.min cursor 2000)) code
     ∧ window_after code cursor
       = substring (Z.to_nat cursor) (Z.to_nat (Z.min 2000 (len - cursor))) code).
Proof.
  intros Hc len. split; [ reflexivity | ].
  unfold window_before, window_after.
  split; [ | split ].
  - rewrite length_slice. fold len. unfold clamp.
    destruct (cursor <? 0) eqn:E1; [ lia | ].
    destruct (Z.max 0 (cursor - 2000) <? 0) eqn:E2; lia.
  - rewrite length_slice. fold len. unfold clamp.
    destruct (cursor <? 0) eqn:E1; [ lia | ].
    destruct (cursor + 2000 <? 0) eqn:E2; lia.
  - intros Hle. rewrite !slice_clamp. cbv zeta. fold len. unfold clamp.
    destruct (cursor <? 0) eqn:E1; [ lia | ].
    destruct (Z.max 0 (cursor - 2000) <? 0) eqn:E2; [ lia | ].
    destruct (cursor + 2000 <? 0) eqn:E3; [ lia | ].
    split; f_equal; lia.
Qed.

Lemma prompt_window_bounded_witness :
  0 ≤ 6
  ∧ userPrompt "print(" "python" 6 None
    = join newline (filter_Boolean (prompt_lines "print(" "python" 6 None))
  ∧ Z.of_nat (String.length (window_before "print(" 6)) ≤ 2000
  ∧ Z.of_nat (String.length (window_after "print(" 6)) ≤ 2000
  ∧ (6 ≤ Z.of_nat (String.length "print(") →
     window_before "print(" 6
       = substring (Z.to_nat (6 - Z.min 6 2000)) (Z.to_nat (Z.min 6 2000)) "print("
     ∧ window_after "print(" 6
       = substring (Z.to_nat 6)
           (Z.to_nat (Z.min 2000 (Z.of_nat (String.length "print(") - 6))) "print(").
Proof.
  split; [ lia | ]. apply (prompt_window_bounded "print(" "python" 6 None). lia.
Defined.

(** X9: a negative cursor is not rejected, and the bound is lost: the
    text put before the cursor mark is then the whole code but its last
    [- cursor] characters, however long that is. *)
Theorem prompt_window_negative_cursor (code : string) (cursor : Z) :
  cursor < 0 →
  let len := Z.of_nat (String.length code) in
  window_before code cursor = substring 0 (Z.to_nat (len + cursor)) code
  ∧ Z.of_nat (String.length (window_before code cursor)) = Z.max (len + cursor) 0.
Proof.
  intros Hc len. unfold window_before. split.
  - rewrite slice_clamp. cbv zeta. fold len. unfold clamp.
    destruct (cursor <? 0) eqn:E1; [ | lia ].
    destruct (Z.max 0 (cursor - 2000) <? 0) eqn:E2; [ lia | ].
    f_equal; lia.
  - rewrite length_slice. fold len. unfold clamp.
    destruct (cursor <? 0) eqn:E1; [ | lia ].
    destruct (Z.max 0 (cursor - 2000) <? 0) eqn:E2; lia.
Qed.

Lemma prompt_window_negative_cursor_witness :
  -2 < 0
  ∧ window_before "abcdef" (-2)
    = substring 0 (Z.to_nat (Z.of_nat (String.length "abcdef") + -2)) "abcdef"
  ∧ Z.of_nat (String.length (window_before "abcdef" (-2)))
    = Z.max (Z.of_nat (String.length "abcdef") + -2) 0.
Proof.
  split; [ lia | ]. apply (prompt_window_negative_cursor "abcdef" (-2)). lia.
Defined.

Lemma sent_error_body (v : JSON.value) :
  JSON.sent (error_body v) = JSON.Object {["error" := JSON.sent v]}.
Proof. unfold error_body. cbn [JSON.sent]. by rewrite map_fmap_singleton. Qed.

Lemma res_status_json_500 (v : JSON.value) :
  res_status_json 500 v = {| status := 500; body := Some (JSON.sent v) |}.
Proof. reflexivity. Qed.

Lemma bodiless_rejected (s : Z) : 300 ≤ s ≤ 999 → bodiless s = (s =? 304).
Proof.
  intros Hs. unfold bodiless.
  destruct (Z.ltb_spec s 200); [ lia | ].
  destruct (Z.eqb_spec s 204); [ lia | ].
  destruct (Z.eqb_spec s 205); [ lia | ]. done.
Qed.

(** X10: every answer of the endpoint is of one of two kinds.  Either
    the status is 200 and the body is what a non-empty provider text
    parses to, or that text wrapped when it does not parse, as
    [JSON.stringify] writes it; or it is an error answer, whose status
    is 500 or the status the failed provider call carried and whose body
    is an object with the one key [error] -- but no body at all when
    that status is 304.  Without a credential the answer is the fixed
    configuration error, whatever the request and the provider. *)
Theorem completions_answer_kinds
    (env : Env) (axios_post : GeminiRequest → AxiosResult)
    (req_body : option Body) :
  rejects_by_status axios_post →
  let r := completions env axios_post req_body in
  let b := default empty_body req_body in
  let rq := gemini_request env (default "" (code b))
              (default "typescript" (language b)) (default 0 (cursor b))
              (instructions b) in
  ((falsy (GEMINI_API_KEY env) = false
    ∧ status r = 200
    ∧ ∃ T, T ≠ "" ∧ axios_post rq = Resolved (Some T)
           ∧ body r = Some (JSON.sent (default (wrapped T) (JSON.parse T))))
   ∨ (∃ v, (status r = 500 ∧ body r = Some (JSON.Object {["error" := v]}))
           ∨ (∃ d m, axios_post rq = Rejected (Some (status r, d)) m
                     ∧ 300 ≤ status r ≤ 999
                     ∧ body r = if status r =? 304 then None
                                else Some (JSON.Object {["error" := v]}))))
  ∧ (falsy (GEMINI_API_KEY env) = true →
     r = {| status := 500;
            body := Some (JSON.Object
              {["error" := JSON.Str "GEMINI_API_KEY is not configured"]}) |}).
Proof.
  intros Hrej. cbv zeta. unfold completions.
  destruct (falsy (GEMINI_API_KEY env)) eqn:Hkey.
  { rewrite res_status_json_500, sent_error_body.
    split; [ | done ]. right. eexists. left. done. }
  split; [ | done ].
  destruct (axios_post _) as [[T|] | response message] eqn:Hpost.
  - unfold respond_text. case_bool_decide as HT.
    + right. rewrite res_status_json_500, sent_error_body. eexists. left. done.
    + left. split; [ done | ].
      destruct (JSON.parse T) as [v|] eqn:Hp.
      * split; [ done | ]. exists T. by rewrite Hp.
      * split; [ done | ]. exists T. by rewrite Hp.
  - right. unfold respond_text. rewrite res_status_json_500, sent_error_body.
    eexists. left. done.
  - right. unfold respond_error. destruct response as [[s d]|].
    + assert (Hs : 300 ≤ s ≤ 999) by (by eapply Hrej).
      unfold res_status_json. cbn [status body].
      rewrite sent_error_body, (bodiless_rejected s Hs).
      eexists. right. exists d, message. done.
    + rewrite res_status_json_500, sent_error_body. eexists. left. done.
Qed.

Lemma completions_answer_kinds_witness :
  let axios_post := failing 304 None (Some "Request failed with status code 304") in
  rejects_by_status axios_post
  ∧ completions configured axios_post (Some print_request)
      = {| status := 304; body := None |}
  ∧ completions configured (failing 429 (Some (JSON.Str "slow down")) None)
      (Some print_request)
      = {| status := 429; body := Some (JSON.Object {["error" := JSON.Str "slow down"]}) |}
  ∧ let r := completions configured axios_post (Some print_request) in
    let b := default empty_body (Some print_request) in
    let rq := gemini_request configured (default "" (code b))
                (default "typescript" (language b)) (default 0 (cursor b))
                (instructions b) in
    ((falsy (GEMINI_API_KEY configured) = false
      ∧ status r = 200
      ∧ ∃ T, T ≠ "" ∧ axios_post rq = Resolved (Some T)
             ∧ body r = Some (JSON.sent (default (wrapped T) (JSON.parse T))))
     ∨ (∃ v, (status r = 500 ∧ body r = Some (JSON.Object {["error" := v]}))
             ∨ (∃ d m, axios_post rq = Rejected (Some (status r, d)) m
                       ∧ 300 ≤ status r ≤ 999
                       ∧ body r = if status r =? 304 then None
                                  else Some (JSON.Object {["error" := v]}))))
    ∧ (falsy (GEMINI_API_KEY configured) = true →
       r = {| status := 500;
              body := Some (JSON.Object
                {["error" := JSON.Str "GEMINI_API_KEY is not configured"]}) |}).
Proof.
  assert (Hrej : rejects_by_status
                   (failing 304 None (Some "Request failed with status code 304"))).
  { intros rq s d m Heq. unfold failing in Heq. inversion Heq. lia. }
  split; [ exact Hrej | ]. split; [ reflexivity | ].
  split; [ vm_compute; reflexivity | ].
  apply (completions_answer_kinds configured
           (failing 304 None (Some "Request failed with status code 304"))
           (Some print_request) Hrej).
Defined.

(** * Properties of the client, and of client and server together *)

(** ** Delivery *)

Lemma deliver_cons (em : Emission) (out : list Emission)
    (clients : gmap string Client.RoomState) :
  Client.deliver (em :: out) clients
    = Client.deliver out (alter (Client.receive em.2) em.1 clients).
Proof. reflexivity. Qed.

(** What a client makes of one message sent once to each socket of a
    list: the clients on the list handle it, the others stay as they are. *)
Lemma deliver_to_all (msg : Message) (x : string) (l : list string) :
  ∀ clients : gmap string Client.RoomState,
  NoDup l →
  Client.deliver ((λ c, (c, msg)) <$> l) clients !! x
    = if decide (x ∈ l) then Client.receive msg <$> clients !! x else clients !! x.
Proof.
  induction l as [ | c l IH ]; intros clients Hnd.
  - destruct (decide (x ∈ [])) as [Hin | _]; [ | done ].
    by apply not_elem_of_nil in Hin.
  - apply NoDup_cons in Hnd as [Hc Hnd]. rewrite fmap_cons, deliver_cons, IH by done.
    simpl. destruct (decide (x = c)) as [-> | Hne].
    + destruct (decide (c ∈ l)) as [Hin | _]; [ done | ].
      destruct (decide (c ∈ c :: l)) as [_ | Hnin].
      * by rewrite lookup_alter_eq.
      * exfalso. apply Hnin, list_elem_of_here.
    + rewrite lookup_alter_ne by done.
      destruct (decide (x ∈ l)) as [Hin | Hnin];
        destruct (decide (x ∈ c :: l)) as [Hin' | Hnin']; try done.
      * exfalso. by apply Hnin', list_elem_of_further.
      * apply elem_of_cons in Hin' as [? | ?]; done.
Qed.

Lemma deliver_emit (to : gset string) (msg : Message) (x : string)
    (clients : gmap string Client.RoomState) :
  Client.deliver (emit to msg) clients !! x
    = if decide (x ∈ to) then Client.receive msg <$> clients !! x else clients !! x.
Proof.
  unfold emit. rewrite deliver_to_all by apply NoDup_elements.
  destruct (decide (x ∈ to)) as [Hin | Hnin];
    destruct (decide (x ∈ elements to)) as [Hin' | Hnin']; try done.
  - exfalso. by apply Hnin', elem_of_elements.
  - exfalso. by apply Hnin, elem_of_elements.
Qed.

(** ** An edit, from one editor to the others *)

(** X11: an edit travels from one client to the whole room.  When a
    client whose socket is connected and whose room id is not empty
    changes its text to [v], it shows [v] and sends one [code_change];
    the server stores [v] for the room; and every other client whose
    socket is in the room shows [v] once it has handled what the server
    emits, its peer list and room untouched.  Clients outside the room
    are sent nothing. *)
Theorem edit_reaches_room
    (s : Client.RoomState) (sid v : string) (now : Z) (st : Server)
    (clients : gmap string Client.RoomState) :
  Client.socket s = Some sid →
  Client.roomId s ≠ "" →
  is_Some (sockets st !! sid) →
  ∃ s' ev st' out,
    Client.handleCodeChange v s = (s', [ev])
    ∧ dispatch st now ev = Some (st', out)
    ∧ Client.code s' = v
    ∧ documents st' !! Client.roomId s = Some {| content := v; updatedAt := now |}
    ∧ (∀ x b, clients !! x = Some b → x ≠ sid → x ∈ in_room (Client.roomId s) st →
         ∃ b', Client.deliver out clients !! x = Some b'
               ∧ Client.code b' = v
               ∧ Client.peers b' = Client.peers b
               ∧ Client.roomId b' = Client.roomId b)
    ∧ (∀ x, x = sid ∨ x ∉ in_room (Client.roomId s) st →
         Client.deliver out clients !! x = clients !! x).
Proof.
  intros Hs Hr [k Hk]. unfold Client.handleCodeChange. rewrite Hs.
  eexists _, _, _, _. split; [ reflexivity | ].
  unfold dispatch. rewrite Hk, on_code_change_accepted by done.
  split; [ reflexivity | ]. split; [ done | ].
  split; [ apply lookup_insert_eq | ]. split.
  - intros x b Hb Hne Hin. rewrite deliver_emit, Hb.
    destruct (decide (x ∈ socket_to sid (Client.roomId s) st)) as [_ | Hnin].
    + eexists. split; [ reflexivity | done ].
    + exfalso. by apply Hnin, elem_of_socket_to.
  - intros x Hx. rewrite deliver_emit.
    destruct (decide (x ∈ socket_to sid (Client.roomId s) st)) as [Hin | _]; [ | done ].
    apply elem_of_socket_to in Hin. tauto.
Qed.

Lemma edit_reaches_room_witness :
  let s := {| Client.socket := Some "a"; Client.roomId := "demo";
              Client.code := ""; Client.cursor := None; Client.peers := ∅ |} in
  let st := (on_join_room "b" (Some "demo") 2
               (on_join_room "a" (Some "demo") 1
                  (on_connection "b" (on_connection "a" start))).1).1 in
  let clients : gmap string Client.RoomState :=
    {[ "b" := {| Client.socket := Some "b"; Client.roomId := "demo";
                 Client.code := ""; Client.cursor := None; Client.peers := ∅ |} ]} in
  Client.socket s = Some "a"
  ∧ Client.roomId s ≠ ""
  ∧ is_Some (sockets st !! "a")
  ∧ ∃ s' ev st' out,
    Client.handleCodeChange "x=1" s = (s', [ev])
    ∧ dispatch st 3 ev = Some (st', out)
    ∧ Client.code s' = "x=1"
    ∧ documents st' !! Client.roomId s = Some {| content := "x=1"; updatedAt := 3 |}
    ∧ (∀ x b, clients !! x = Some b → x ≠ "a" → x ∈ in_room (Client.roomId s) st →
         ∃ b', Client.deliver out clients !! x = Some b'
               ∧ Client.code b' = "x=1"
               ∧ Client.peers b' = Client.peers b
               ∧ Client.roomId b' = Client.roomId b)
    ∧ (∀ x, x = "a" ∨ x ∉ in_room (Client.roomId s) st →
         Client.deliver out clients !! x = clients !! x).
Proof.
  assert (Hconn : is_Some (sockets (on_join_room "b" (Some "demo") 2
               (on_join_room "a" (Some "demo") 1
                  (on_connection "b" (on_connection "a" start))).1).1 !! "a")).
  { eexists. vm_compute. reflexivity. }
  split; [ reflexivity | ]. split; [ discriminate | ]. split; [ exact Hconn | ].
  apply (edit_reaches_room
           {| Client.socket := Some "a"; Client.roomId := "demo";
              Client.code := ""; Client.cursor := None; Client.peers := ∅ |}
           "a" "x=1" 3 _ _ eq_refl); [ discriminate | exact Hconn ].
Defined.

(** ** Presence *)



(** ** Changing the room *)

Lemma deliver_app (o1 o2 : list Emission) (clients : gmap string Client.RoomState) :
  Client.deliver (o1 ++ o2) clients = Client.deliver o2 (Client.deliver o1 clients).
Proof. unfold Client.deliver. apply foldl_app. Qed.

(** What a disconnect emits goes to sockets that are connected. *)
Lemma on_disconnect_emits (sid : string) (st : Server) :
  ∃ to, (on_disconnect sid st).2 = emit to (peer_left sid)
        ∧ ∀ x, x ∈ to → is_Some (sockets st !! x).
Proof.
  assert (Hnone : ∃ to, [] = emit to (peer_left sid)
                        ∧ ∀ x, x ∈ to → is_Some (sockets st !! x)).
  { exists ∅. split; [ | intros x Hx; by apply not_elem_of_empty in Hx ].
    unfold emit. by rewrite elements_empty. }
  unfold on_disconnect. cbn [snd].
  destruct (sockets st !! sid) as [k|]; [ | exact Hnone ].
  destruct (activeRoom k) as [r0|]; [ | exact Hnone ].
  destruct (falsy (Some r0)); [ exact Hnone | ].
  exists (socket_to sid r0 st). split; [ done | ].
  intros x [_ Hin]%elem_of_socket_to.
  apply elem_of_in_room in Hin as (k' & Hk' & _). eauto.
Qed.

(** X13: changing the room never reuses the socket.  With a connected
    client and a new room id that is not empty, the old socket is
    disconnected and a fresh one connects and joins the new room; on the
    server the old socket is then gone and the fresh one is in that room
    and in the room of its id only, recorded for the new room.  Of what
    the server emits on the way the fresh socket is sent the snapshot of
    the new room and nothing else, and when the client has handled it
    the text it shows is the text of that snapshot -- the empty text for
    a room that was not there -- while the peer list it showed for the
    old room is still there as it was. *)
Theorem change_room_reconnects
    (r fresh old : string) (s : Client.RoomState) (t0 now now' : Z) (st : Server) :
  Client.socket s = Some old →
  r ≠ Client.roomId s →
  r ≠ "" →
  is_Some (sockets st !! old) →
  sockets st !! fresh = None →
  ∃ s' st' out snapshot,
    Client.change_room r fresh s
      = (s', [EvDisconnect old; EvConnection fresh; EvJoinRoom fresh (Some r)])
    ∧ Client.socket s' = Some fresh
    ∧ Client.roomId s' = r
    ∧ run st [(t0, EvDisconnect old); (now, EvConnection fresh);
              (now', EvJoinRoom fresh (Some r))]
        = Some (st', out)
    ∧ sockets st' !! old = None
    ∧ sockets st' !! fresh
        = Some {| activeRoom := Some r; rooms := {[fresh; r]} |}
    ∧ snapshot = default {| content := ""; updatedAt := now' |} (documents st !! r)
    ∧ documents st' !! r = Some snapshot
    ∧ (∀ m, (fresh, m) ∈ out ↔ m = initial_state (Some snapshot))
    ∧ Client.deliver out {[fresh := s']} !! fresh
        = Some {| Client.socket := Some fresh; Client.roomId := r;
                  Client.code := content snapshot; Client.cursor := Client.cursor s;
                  Client.peers := Client.peers s |}.
Proof.
  intros Hs Hne Hr [ko Hko] Hfresh.
  assert (Hfo : fresh ≠ old) by (intros ->; congruence).
  assert (Hcr : Client.change_room r fresh s
    = (Client.setSocket (Some fresh) (Client.setRoom r s),
       [EvDisconnect old; EvConnection fresh; EvJoinRoom fresh (Some r)])).
  { unfold Client.change_room. rewrite bool_decide_eq_false_2 by done.
    unfold Client.effect, Client.cleanup. by rewrite Hs. }
  destruct (on_disconnect_emits old st) as (to & Hto & Hconn).
  set (std := (on_disconnect old st).1).
  set (stc := on_connection fresh std).
  assert (Hd : on_disconnect old st = (std, emit to (peer_left old))).
  { rewrite <- Hto. unfold std. by destruct (on_disconnect old st). }
  assert (Hfd : sockets std !! fresh = None).
  { unfold std, on_disconnect. cbn [fst sockets].
    by rewrite lookup_delete_ne. }
  assert (Hk : sockets stc !! fresh = Some {| activeRoom := None; rooms := {[fresh]} |}).
  { unfold stc, on_connection. cbn [sockets]. apply lookup_insert_eq. }
  assert (Hdocs : documents stc = documents st) by reflexivity.
  set (snapshot := default {| content := ""; updatedAt := now' |} (documents st !! r)).
  set (docs := match documents stc !! r with
               | Some _ => documents stc
               | None => <[r := {| content := ""; updatedAt := now' |}]> (documents stc)
               end).
  assert (Hsnap : docs !! r = Some snapshot).
  { unfold docs, snapshot. rewrite Hdocs.
    destruct (documents st !! r) as [d|] eqn:Hdr; [ done | apply lookup_insert_eq ]. }
  set (st' := {| documents := docs;
                 sockets := alter (λ k, {| activeRoom := Some r; rooms := {[r]} ∪ rooms k |})
                              fresh (sockets stc) |}).
  assert (Hj : on_join_room fresh (Some r) now' stc
               = (st', (fresh, initial_state (Some snapshot))
                         :: emit (socket_to fresh r st') (peer_joined fresh))).
  { unfold on_join_room. rewrite (falsy_nonempty r Hr). rewrite <- Hsnap. reflexivity. }
  assert (Hrun : run st [(t0, EvDisconnect old); (now, EvConnection fresh);
                         (now', EvJoinRoom fresh (Some r))]
                 = Some (st', emit to (peer_left old)
                              ++ (fresh, initial_state (Some snapshot))
                                   :: emit (socket_to fresh r st') (peer_joined fresh))).
  { cbn [run]. unfold dispatch at 1. rewrite Hko, Hd.
    unfold dispatch at 1. rewrite Hfd. fold stc.
    unfold dispatch at 1. rewrite Hk, Hj. cbn [app]. by rewrite app_nil_r. }
  assert (Hnot_to : fresh ∉ to).
  { intros Hin. destruct (Hconn _ Hin) as [k' Hk']. congruence. }
  assert (Hnot_room : fresh ∉ socket_to fresh r st').
  { rewrite elem_of_socket_to. tauto. }
  exists (Client.setSocket (Some fresh) (Client.setRoom r s)), st',
    (emit to (peer_left old)
     ++ (fresh, initial_state (Some snapshot))
          :: emit (socket_to fresh r st') (peer_joined fresh)), snapshot.
  split; [ exact Hcr | ]. split; [ done | ]. split; [ done | ].
  split; [ exact Hrun | ]. split.
  { unfold st'. cbn [sockets]. rewrite lookup_alter_ne by done.
    unfold stc, on_connection. cbn [sockets]. rewrite lookup_insert_ne by done.
    unfold std, on_disconnect. cbn [fst sockets]. apply lookup_delete_eq. }
  split.
  { unfold st'. cbn [sockets]. rewrite lookup_alter_eq, Hk. cbn [fmap option_fmap option_map].
    f_equal. cbn [rooms]. f_equal. apply set_eq. intros y. rewrite !elem_of_union. tauto. }
  split; [ done | ]. split; [ exact Hsnap | ]. split.
  { intros m. rewrite elem_of_app, elem_of_cons, !elem_of_emit. split.
    - intros [[Hin _] | [Heq | [Hin _]]]; [ done | by simplify_eq | done ].
    - intros ->. right. by left. }
  rewrite deliver_app, deliver_cons, !deliver_emit.
  destruct (decide (fresh ∈ socket_to fresh r st')) as [Hin | _]; [ done | ].
  cbn [fst snd]. rewrite lookup_alter_eq, deliver_emit.
  destruct (decide (fresh ∈ to)) as [Hin | _]; [ done | ].
  by rewrite lookup_singleton_eq.
Qed.

Lemma change_room_reconnects_witness :
  let s := {| Client.socket := Some "a"; Client.roomId := "r1";
              Client.code := "old text"; Client.cursor := None;
              Client.peers := {["p" := None]} |} in
  Client.socket s = Some "a"
  ∧ "r" ≠ Client.roomId s
  ∧ "r" ≠ ""
  ∧ is_Some (sockets (state_after change_only_trace) !! "a")
  ∧ sockets (state_after change_only_trace) !! "b" = None
  ∧ documents (state_after change_only_trace) !! "r"
      = Some {| content := "x"; updatedAt := 1 |}
  ∧ ∃ s' st' out snapshot,
    Client.change_room "r" "b" s
      = (s', [EvDisconnect "a"; EvConnection "b"; EvJoinRoom "b" (Some "r")])
    ∧ Client.socket s' = Some "b"
    ∧ Client.roomId s' = "r"
    ∧ run (state_after change_only_trace)
        [(2, EvDisconnect "a"); (3, EvConnection "b"); (4, EvJoinRoom "b" (Some "r"))]
        = Some (st', out)
    ∧ sockets st' !! "a" = None
    ∧ sockets st' !! "b"
        = Some {| activeRoom := Some "r"; rooms := {["b"; "r"]} |}
    ∧ snapshot = default {| content := ""; updatedAt := 4 |}
                   (documents (state_after change_only_trace) !! "r")
    ∧ documents st' !! "r" = Some snapshot
    ∧ (∀ m, ("b", m) ∈ out ↔ m = initial_state (Some snapshot))
    ∧ Client.deliver out {["b" := s']} !! "b"
        = Some {| Client.socket := Some "b"; Client.roomId := "r";
                  Client.code := content snapshot; Client.cursor := Client.cursor s;
                  Client.peers := Client.peers s |}.
Proof.
  assert (Hold : is_Some (sockets (state_after change_only_trace) !! "a")).
  { eexists. vm_compute. reflexivity. }
  assert (Hfresh : sockets (state_after change_only_trace) !! "b" = None).
  { vm_compute. reflexivity. }
  split; [ reflexivity | ]. split; [ discriminate | ]. split; [ discriminate | ].
  split; [ exact Hold | ]. split; [ exact Hfresh | ].
  split; [ vm_compute; reflexivity | ].
  apply (change_room_reconnects "r" "b" "a"
           {| Client.socket := Some "a"; Client.roomId := "r1";
              Client.code := "old text"; Client.cursor := None;
              Client.peers := {["p" := None]} |}
           2 3 4 (state_after change_only_trace) eq_refl);
    [ discriminate | discriminate | exact Hold | exact Hfresh ].
Defined.

(** ** Suggestions *)

Lemma first_completion_wrapped (t : string) :
  Client.first_completion (wrapped t)
    = Some (Some (JSON.Object (<["insertText" := JSON.Str t]>
                                 {["displayText" := JSON.Str "Gemini suggestion"]}))).
Proof.
  unfold Client.first_completion, Client.get_completions, wrapped.
  by rewrite lookup_singleton_eq.
Qed.

Lemma on_completion_answer_200 (v : JSON.value) (a : Client.App) :
  Client.on_completion_answer (Some (res_json v)) a
    = {| Client.store := Client.store a; Client.language := Client.language a;
         Client.loadingCompletion := false;
         Client.completion := match Client.first_completion (JSON.sent v) with
                              | Some c => c
                              | None => Client.completion a
                              end |}.
Proof. reflexivity. Qed.

(** X14: a provider text that is no JSON ends in the shared document.
    With a credential configured, when the provider answers the client's
    request with a non-empty text [T] that does not parse, the client
    shows the wrapped suggestion and clears its loading flag; applying
    the suggestion appends [T] to the client's text, emits one
    [code_change] with the new text for the client's room, and clears
    the suggestion. *)
Theorem fallback_text_is_inserted
    (env : Env) (axios_post : GeminiRequest → AxiosResult)
    (a : Client.App) (T sid : string) :
  falsy (GEMINI_API_KEY env) = false →
  axios_post (gemini_request env (Client.code (Client.store a)) (Client.language a)
                (Z.of_nat (String.length (Client.code (Client.store a)))) None)
    = Resolved (Some T) →
  T ≠ "" →
  JSON.parse T = None →
  Client.socket (Client.store a) = Some sid →
  ∃ a1 a2,
    Client.on_completion_answer
      (Some (completions env axios_post (Some (Client.completion_request a)))) a = a1
    ∧ Client.loadingCompletion a1 = false
    ∧ Client.completion a1
        = Some (JSON.Object (<["insertText" := JSON.Str T]>
                               {["displayText" := JSON.Str "Gemini suggestion"]}))
    ∧ Client.handleApplyCompletion a1
        = Some (a2, [EvCodeChange sid (Some (Client.roomId (Client.store a)))
                       (Some (JSON.Str (Client.code (Client.store a) +:+ T)))])
    ∧ Client.code (Client.store a2) = Client.code (Client.store a) +:+ T
    ∧ Client.completion a2 = None.
Proof.
  intros Hkey Hpost HT Hparse Hs.
  assert (Hres : completions env axios_post (Some (Client.completion_request a))
                 = res_json (wrapped T)).
  { unfold completions. rewrite Hkey. simpl. rewrite Hpost. unfold respond_text.
    rewrite bool_decide_eq_false_2 by done. by rewrite Hparse. }
  rewrite Hres, on_completion_answer_200, sent_wrapped, first_completion_wrapped.
  eexists _, _. split; [ reflexivity | ]. split; [ done | ]. split; [ done | ].
  unfold Client.handleApplyCompletion.
  cbn [Client.completion Client.no_completion Client.insertText].
  rewrite lookup_insert_eq.
  cbn [Client.appended Client.store Client.language Client.loadingCompletion].
  unfold Client.handleCodeChange. rewrite Hs. done.
Qed.

Lemma fallback_text_is_inserted_witness :
  let a := {| Client.store :=
                {| Client.socket := Some "a"; Client.roomId := "demo";
                   Client.code := "print("; Client.cursor := None;
                   Client.peers := ∅ |};
              Client.language := "python"; Client.loadingCompletion := true;
              Client.completion := None |} in
  falsy (GEMINI_API_KEY configured) = false
  ∧ answering "Hello" (gemini_request configured "print(" "python" 6 None)
      = Resolved (Some "Hello")
  ∧ "Hello" ≠ ""
  ∧ JSON.parse "Hello" = None
  ∧ ∃ a1 a2,
    Client.on_completion_answer
      (Some (completions configured (answering "Hello")
               (Some (Client.completion_request a)))) a = a1
    ∧ Client.loadingCompletion a1 = false
    ∧ Client.completion a1
        = Some (JSON.Object (<["insertText" := JSON.Str "Hello"]>
                               {["displayText" := JSON.Str "Gemini suggestion"]}))
    ∧ Client.handleApplyCompletion a1
        = Some (a2, [EvCodeChange "a" (Some "demo") (Some (JSON.Str "print(Hello"))])
    ∧ Client.code (Client.store a2) = "print(Hello"
    ∧ Client.completion a2 = None.
Proof.
  assert (Hp : JSON.parse "Hello" = None) by (vm_compute; reflexivity).
  split; [ reflexivity | ]. split; [ reflexivity | ]. split; [ discriminate | ].
  split; [ exact Hp | ].
  apply (fallback_text_is_inserted configured (answering "Hello")
           {| Client.store :=
                {| Client.socket := Some "a"; Client.roomId := "demo";
                   Client.code := "print("; Client.cursor := None;
                   Client.peers := ∅ |};
              Client.language := "python"; Client.loadingCompletion := true;
              Client.completion := None |}
           "Hello" "a" eq_refl eq_refl); [ discriminate | exact Hp | reflexivity ].
Defined.

(** X15: a suggestion without [insertText] is applied all the same.  When
    the suggestion shown is an object that has no [insertText], applying
    it appends the text [undefined] to the client's text and sends that
    to the room. *)
Theorem apply_without_insertText
    (a : Client.App) (o : gmap string JSON.value) (sid : string) :
  Client.completion a = Some (JSON.Object o) →
  o !! "insertText" = None →
  Client.socket (Client.store a) = Some sid →
  ∃ a',
    Client.handleApplyCompletion a
      = Some (a', [EvCodeChange sid (Some (Client.roomId (Client.store a)))
                     (Some (JSON.Str (Client.code (Client.store a) +:+ "undefined")))])
    ∧ Client.code (Client.store a') = Client.code (Client.store a) +:+ "undefined"
    ∧ Client.completion a' = None.
Proof.
  intros Hc Ho Hs. unfold Client.handleApplyCompletion. rewrite Hc. simpl.
  rewrite Ho. simpl. unfold Client.handleCodeChange. rewrite Hs.
  eexists. split; [ reflexivity | done ].
Qed.

Lemma apply_without_insertText_witness :
  let a := {| Client.store :=
                {| Client.socket := Some "a"; Client.roomId := "demo";
                   Client.code := "x"; Client.cursor := None; Client.peers := ∅ |};
              Client.language := "python"; Client.loadingCompletion := false;
              Client.completion := Some (JSON.Object {["text" := JSON.Str "y"]}) |} in
  Client.completion a = Some (JSON.Object {["text" := JSON.Str "y"]})
  ∧ ({["text" := JSON.Str "y"]} : gmap string JSON.value) !! "insertText" = None
  ∧ ∃ a',
    Client.handleApplyCompletion a
      = Some (a', [EvCodeChange "a" (Some "demo") (Some (JSON.Str "xundefined"))])
    ∧ Client.code (Client.store a') = "xundefined"
    ∧ Client.completion a' = None.
Proof.
  assert (Ho : ({["text" := JSON.Str "y"]} : gmap string JSON.value) !! "insertText"
               = None) by (vm_compute; reflexivity).
  split; [ reflexivity | ]. split; [ exact Ho | ].
  apply (apply_without_insertText
           {| Client.store :=
                {| Client.socket := Some "a"; Client.roomId := "demo";
                   Client.code := "x"; Client.cursor := None; Client.peers := ∅ |};
              Client.language := "python"; Client.loadingCompletion := false;
              Client.completion := Some (JSON.Object {["text" := JSON.Str "y"]}) |}
           _ "a" eq_refl Ho eq_refl).
Defined.

Lemma substring_none (s : string) (n : nat) : substring n 0 s = "".
Proof. revert n. induction s as [ | c s IH ]; intros [ | n ]; simpl; auto. Qed.

Lemma windows_inside (code : string) (cursor : Z) :
  0 ≤ cursor ≤ Z.of_nat (String.length code) →
  window_before code cursor
    = substring (Z.to_nat (cursor - Z.min cursor 2000)) (Z.to_nat (Z.min cursor 2000)) code
  ∧ window_after code cursor
    = substring (Z.to_nat cursor)
        (Z.to_nat (Z.min 2000 (Z.of_nat (String.length code) - cursor))) code.
Proof.
  intros Hc. unfold window_before, window_after. rewrite !slice_clamp. cbv zeta.
  unfold clamp.
  destruct (cursor <? 0) eqn:E1; [ lia | ].
  destruct (Z.max 0 (cursor - 2000) <? 0) eqn:E2; [ lia | ].
  destruct (cursor + 2000 <? 0) eqn:E3; [ lia | ].
  split; f_equal; lia.
Qed.

Lemma filter_Boolean_cons_Some (x : string) (xs : list (option string)) :
  filter_Boolean (Some x :: xs)
    = (if bool_decide (x = "") then [] else [x]) ++ filter_Boolean xs.
Proof. unfold filter_Boolean. simpl. by destruct (bool_decide (x = "")). Qed.

Lemma filter_Boolean_cons_None (xs : list (option string)) :
  filter_Boolean (None :: xs) = filter_Boolean xs.
Proof. reflexivity. Qed.

(** X16: the client always asks for a completion at the end of its text.
    The cursor it posts is the length of the text, so the prompt the
    server builds for it carries the last 2000 characters of the text at
    most, and nothing between the cursor mark and the end of the file;
    for an empty text there is no code line at all. *)
Theorem client_asks_at_end (a : Client.App) :
  let c := Client.code (Client.store a) in
  let len := Z.of_nat (String.length c) in
  cursor (Client.completion_request a) = Some len
  ∧ code (Client.completion_request a) = Some c
  ∧ window_after c len = ""
  ∧ window_before c len
    = substring (Z.to_nat (len - Z.min len 2000)) (Z.to_nat (Z.min len 2000)) c
  ∧ Z.of_nat (String.length (window_before c len)) = Z.min len 2000
  ∧ userPrompt c (Client.language a) len None
    = join newline
        ([ "Language: " +:+ Client.language a; "Cursor offset: " +:+ pretty len;
           "---- CURRENT FILE START ----" ]
         ++ (if bool_decide (c = "") then [] else [window_before c len])
         ++ [ "<CURSOR>"; "---- CURRENT FILE END ----" ]).
Proof.
  intros c len.
  assert (Hin : 0 ≤ len ≤ Z.of_nat (String.length c)) by (unfold len; lia).
  destruct (windows_inside c len Hin) as [Hb Ha].
  assert (Hafter : window_after c len = "").
  { rewrite Ha. fold len. replace (Z.to_nat (Z.min 2000 (len - len))) with 0%nat by lia.
    apply substring_none. }
  assert (Hlen : Z.of_nat (String.length (window_before c len)) = Z.min len 2000).
  { rewrite Hb, length_substring. unfold len. lia. }
  split; [ done | ]. split; [ done | ]. split; [ done | ]. split; [ done | ].
  split; [ done | ].
  rewrite userPrompt_lines. unfold prompt_lines. cbv iota. rewrite Hafter.
  rewrite !filter_Boolean_cons_Some, filter_Boolean_cons_None,
    !filter_Boolean_cons_Some.
  assert (Hempty : bool_decide (window_before c len = "") = bool_decide (c = "")).
  { apply bool_decide_ext. split.
    - intros He. rewrite He in Hlen. simpl in Hlen. destruct c; [ done | ].
      unfold len in Hlen. simpl in Hlen. lia.
    - intros He. unfold len. by rewrite He. }
  rewrite Hempty. reflexivity.
Qed.

(** X17: an error of the endpoint leaves the suggestion as it is.  When
    the endpoint has no credential, or the provider resolved without a
    text or with the empty text, the endpoint answers 500 and the client
    only clears its loading flag: a suggestion shown before stays shown.
    The same holds when no answer arrives at all. *)
Theorem error_answer_keeps_suggestion
    (env : Env) (axios_post : GeminiRequest → AxiosResult) (a : Client.App) :
  falsy (GEMINI_API_KEY env) = true
  ∨ axios_post (gemini_request env (Client.code (Client.store a)) (Client.language a)
                  (Z.of_nat (String.length (Client.code (Client.store a)))) None)
      = Resolved None
  ∨ axios_post (gemini_request env (Client.code (Client.store a)) (Client.language a)
                  (Z.of_nat (String.length (Client.code (Client.store a)))) None)
      = Resolved (Some "") →
  status (completions env axios_post (Some (Client.completion_request a))) = 500
  ∧ Client.on_completion_answer
      (Some (completions env axios_post (Some (Client.completion_request a)))) a
    = Client.loaded a
  ∧ Client.on_completion_answer None a = Client.loaded a.
Proof.
  intros Hcase.
  assert (Hst : status (completions env axios_post (Some (Client.completion_request a)))
                = 500).
  { unfold completions. destruct (falsy (GEMINI_API_KEY env)) eqn:Hkey; [ done | ].
    simpl. destruct Hcase as [? | [-> | ->]]; done. }
  split; [ done | ]. split; [ | done ].
  unfold Client.on_completion_answer. by rewrite Hst.
Qed.

Lemma error_answer_keeps_suggestion_witness :
  let env := {| env_GEMINI_API_KEY := None; env_GEMINI_MODEL := None |} in
  let a := {| Client.store := Client.initial_store; Client.language := "python";
              Client.loadingCompletion := true;
              Client.completion := Some (JSON.Str "kept") |} in
  (falsy (GEMINI_API_KEY env) = true
   ∨ answering "x" (gemini_request env "" "python" 0 None) = Resolved None
   ∨ answering "x" (gemini_request env "" "python" 0 None) = Resolved (Some ""))
  ∧ status (completions env (answering "x") (Some (Client.completion_request a))) = 500
  ∧ Client.on_completion_answer
      (Some (completions env (answering "x") (Some (Client.completion_request a)))) a
    = Client.loaded a
  ∧ Client.on_completion_answer None a = Client.loaded a.
Proof.
  split; [ by left | ].
  apply (error_answer_keeps_suggestion
           {| env_GEMINI_API_KEY := None; env_GEMINI_MODEL := None |}
           (answering "x")
           {| Client.store := Client.initial_store; Client.language := "python";
              Client.loadingCompletion := true;
              Client.completion := Some (JSON.Str "kept") |}).
  by left.
Defined.

(** ** Presence needs cursor events *)

(** X18: the client never sends a cursor.  None of the events that its
    effect, its cleanup, a change of room, an edit or an applied
    suggestion produce is a [cursor_update]. *)
Theorem client_never_sends_cursor
    (s : Client.RoomState) (a : Client.App) (sid r fresh v : string) :
  Forall (λ e, Client.is_cursor_event e = false)
    ((Client.effect sid s).2 ++ Client.cleanup sid
     ++ (Client.change_room r fresh s).2 ++ (Client.handleCodeChange v s).2)
  ∧ ∀ a' evs, Client.handleApplyCompletion a = Some (a', evs) →
      Forall (λ e, Client.is_cursor_event e = false) evs.
Proof.
  split.
  - repeat (apply Forall_app; split).
    + repeat constructor.
    + repeat constructor.
    + unfold Client.change_room. destruct (bool_decide (r = Client.roomId s)).
      * constructor.
      * simpl. destruct (Client.socket s); repeat constructor.
    + simpl. destruct (Client.socket s); repeat constructor.
  - intros a' evs Happ. unfold Client.handleApplyCompletion in Happ.
    destruct (Client.completion a) as [c|]; [ | simplify_eq; constructor ].
    destruct (Client.no_completion (Some c)); [ simplify_eq; constructor | ].
    destruct (Client.appended (Client.insertText c)) as [t|]; [ | done ].
    unfold Client.handleCodeChange in Happ.
    destruct (Client.socket (Client.store a)); simplify_eq; repeat constructor.
Qed.

Lemma dispatch_no_cursor_message st now e st' out :
  dispatch st now e = Some (st', out) →
  Client.is_cursor_event e = false →
  ∀ x p c, (x, cursor_update p c) ∉ out.
Proof.
  intros Hd He x p c Hin.
  destruct e as [s0|s0 roomId|s0 roomId cnt|s0 roomId cur|s0|s0 lst]; try done;
    simpl in Hd; destruct (sockets st !! s0) as [k0|] eqn:Hk0; try done;
    inversion Hd as [[Hst Hout]]; clear Hd.
  - subst out. by apply elem_of_nil in Hin.
  - unfold on_join_room in Hst. destruct roomId as [r|].
    2:{ simplify_eq. by apply elem_of_nil in Hin. }
    destruct (falsy (Some r)).
    { simplify_eq. by apply elem_of_nil in Hin. }
    inversion Hst as [[Hst' Hout]]. clear Hst. subst out.
    apply elem_of_cons in Hin as [Heq | Hin]; [ discriminate | ].
    apply elem_of_emit in Hin as [_ ?]. discriminate.
  - unfold on_code_change in Hst. destruct roomId as [r|].
    2:{ simplify_eq. by apply elem_of_nil in Hin. }
    destruct cnt as [[ | | | t | | ]|];
      try (simplify_eq; by apply elem_of_nil in Hin).
    destruct (falsy (Some r)).
    { simplify_eq. by apply elem_of_nil in Hin. }
    inversion Hst as [[Hst' Hout]]. clear Hst. subst out.
    apply elem_of_emit in Hin as [_ ?]. discriminate.
  - rewrite Hk0 in Hout. subst out.
    destruct (activeRoom k0) as [r|]; [ | by apply elem_of_nil in Hin ].
    destruct (falsy (Some r)); [ by apply elem_of_nil in Hin | ].
    apply elem_of_emit in Hin as [_ ?]. discriminate.
Qed.

Lemma run_no_cursor_message tr : ∀ st st' out,
  run st tr = Some (st', out) →
  Forall (λ ne, Client.is_cursor_event ne.2 = false) tr →
  ∀ x p c, (x, cursor_update p c) ∉ out.
Proof.
  induction tr as [ | [now e] tr IH ]; intros st st' out Hrun Hall x p c Hin.
  - simpl in Hrun. simplify_eq. by apply elem_of_nil in Hin.
  - simpl in Hrun.
    destruct (dispatch st now e) as [[s1 o1]|] eqn:Hd; [ | done ].
    destruct (run s1 tr) as [[s2 o2]|] eqn:Hrun1; [ | done ]. simplify_eq.
    inversion Hall as [ | ? ? Hhd Htl ]; subst.
    apply elem_of_app in Hin as [Hin | Hin].
    + by eapply dispatch_no_cursor_message.
    + by eapply IH.
Qed.

Lemma receive_peers_shrink (m : Message) (b : Client.RoomState) :
  (∀ p c, m ≠ cursor_update p c) →
  dom (Client.peers (Client.receive m b)) ⊆ dom (Client.peers b).
Proof.
  intros Hm. destruct m as [[d|]| | |p c| ]; simpl; try done.
  - by destruct (Hm p c).
  - rewrite dom_delete. apply subseteq_difference_l. done.
Qed.

Lemma deliver_peers_shrink (out : list Emission) :
  ∀ (clients : gmap string Client.RoomState) x b,
  (∀ y p c, (y, cursor_update p c) ∉ out) →
  clients !! x = Some b →
  ∃ b', Client.deliver out clients !! x = Some b'
        ∧ dom (Client.peers b') ⊆ dom (Client.peers b).
Proof.
  induction out as [ | [y m] out IH ]; intros clients x b Hnc Hb.
  - exists b. done.
  - rewrite deliver_cons. simpl.
    assert (Hm : ∀ p c, m ≠ cursor_update p c).
    { intros p c ->. apply (Hnc y p c), list_elem_of_here. }
    assert (Hrest : ∀ y' p c, (y', cursor_update p c) ∉ out).
    { intros y' p c Hin. apply (Hnc y' p c). by apply list_elem_of_further. }
    destruct (decide (y = x)) as [-> | Hne].
    + destruct (IH (alter (Client.receive m) x clients) x (Client.receive m b) Hrest)
        as (b' & Hb' & Hsub).
      { by rewrite lookup_alter_eq, Hb. }
      exists b'. split; [ done | ].
      etrans; [ exact Hsub | by apply receive_peers_shrink ].
    + apply (IH _ x b Hrest). by rewrite lookup_alter_ne.
Qed.

(** X19: without cursor events nobody is listed.  Along any trace that
    holds no [cursor_update] event -- every trace the clients above can
    produce -- the server emits no [cursor_update], and a client that
    handles everything the server emits gains no entry in its peer
    list: a client that starts with an empty list keeps it empty,
    whoever joins. *)
Theorem presence_needs_cursor_events
    (tr : list (Z * Event)) (st st' : Server) (out : list Emission)
    (clients : gmap string Client.RoomState) (x : string) (b : Client.RoomState) :
  run st tr = Some (st', out) →
  Forall (λ ne, Client.is_cursor_event ne.2 = false) tr →
  clients !! x = Some b →
  (∀ y p c, (y, cursor_update p c) ∉ out)
  ∧ ∃ b', Client.deliver out clients !! x = Some b'
          ∧ dom (Client.peers b') ⊆ dom (Client.peers b)
          ∧ (Client.peers b = ∅ → Client.peers b' = ∅).
Proof.
  intros Hrun Hall Hb.
  assert (Hnc : ∀ y p c, (y, cursor_update p c) ∉ out)
    by (by eapply run_no_cursor_message).
  split; [ done | ].
  destruct (deliver_peers_shrink out clients x b Hnc Hb) as (b' & Hb' & Hsub).
  exists b'. split; [ done | ]. split; [ done | ].
  intros He. rewrite He, dom_empty_L in Hsub.
  apply dom_empty_iff_L. set_solver.
Qed.

Lemma presence_needs_cursor_events_witness :
  let clients : gmap string Client.RoomState := {[ "a" := Client.initial_store ]} in
  ∃ st' out,
    run start demo_trace = Some (st', out)
    ∧ Forall (λ ne, Client.is_cursor_event ne.2 = false) demo_trace
    ∧ clients !! "a" = Some Client.initial_store
    ∧ (∀ y p c, (y, cursor_update p c) ∉ out)
    ∧ ∃ b', Client.deliver out clients !! "a" = Some b'
            ∧ dom (Client.peers b') ⊆ dom (Client.peers Client.initial_store)
            ∧ (Client.peers Client.initial_store = ∅ → Client.peers b' = ∅).
Proof.
  assert (Hall : Forall (λ ne, Client.is_cursor_event ne.2 = false) demo_trace).
  { unfold demo_trace. repeat constructor. }
  assert (Hb : ({[ "a" := Client.initial_store ]} : gmap string Client.RoomState) !! "a"
               = Some Client.initial_store) by apply lookup_singleton_eq.
  eexists _, _. split; [ reflexivity | ]. split; [ exact Hall | ].
  split; [ exact Hb | ].
  apply (presence_needs_cursor_events demo_trace start _ _ _ "a" _ eq_refl Hall Hb).
Defined.

(** ** The empty room id *)

(** X20: with the room input emptied, the client works alone.  A client
    whose room id is the empty text still connects and sends its join
    and its edits, but the server drops them: the join creates no room
    and sends no snapshot, an edit changes the client's own text only,
    and the server's rooms and sockets are as they were, with nothing
    emitted to anyone. *)
Theorem empty_room_id_is_local
    (s : Client.RoomState) (sid v : string) (now : Z) (st : Server) :
  Client.roomId s = "" →
  Client.socket s = Some sid →
  is_Some (sockets st !! sid) →
  ∃ s' ev,
    Client.handleCodeChange v s = (s', [ev])
    ∧ Client.code s' = v
    ∧ dispatch st now ev = Some (st, [])
    ∧ dispatch st now (EvJoinRoom sid (Some (Client.roomId s))) = Some (st, [])
    ∧ last (Client.effect sid s).2 = Some (EvJoinRoom sid (Some "")).
Proof.
  intros Hr Hs [k Hk]. unfold Client.handleCodeChange. rewrite Hs, Hr.
  eexists _, _. split; [ reflexivity | ]. split; [ done | ].
  unfold dispatch. rewrite Hk. split; [ done | ]. split; [ done | ].
  unfold Client.effect. simpl. by rewrite Hr.
Qed.

Lemma empty_room_id_is_local_witness :
  let s := {| Client.socket := Some "a"; Client.roomId := "";
              Client.code := ""; Client.cursor := None; Client.peers := ∅ |} in
  let st := on_connection "a" start in
  Client.roomId s = ""
  ∧ Client.socket s = Some "a"
  ∧ is_Some (sockets st !! "a")
  ∧ ∃ s' ev,
    Client.handleCodeChange "x" s = (s', [ev])
    ∧ Client.code s' = "x"
    ∧ dispatch st 1 ev = Some (st, [])
    ∧ dispatch st 1 (EvJoinRoom "a" (Some (Client.roomId s))) = Some (st, [])
    ∧ last (Client.effect "a" s).2 = Some (EvJoinRoom "a" (Some "")).
Proof.
  assert (Hconn : is_Some (sockets (on_connection "a" start) !! "a")).
  { eexists. vm_compute. reflexivity. }
  split; [ reflexivity | ]. split; [ reflexivity | ]. split; [ exact Hconn | ].
  apply (empty_room_id_is_local
           {| Client.socket := Some "a"; Client.roomId := "";
              Client.code := ""; Client.cursor := None; Client.peers := ∅ |}
           "a" "x" 1 _ eq_refl eq_refl Hconn).
Defined.
